(** * redis-go-cache: the namespaced cache client of [cache.go]

    A shallow embedding of package [cache]: the client [Cache] over a
    redigo connection pool, its key namespacing, and the cursor-driven
    SCAN loops of [Clear] and [GetKeys].

    Conventions of the embedding.
    - A Go [string] is a sequence of bytes: [string] of [Stdlib.Strings].
    - [interface{}] values that travel to and from the store are [iface].
    - A Go [error] is [option error]: [None] is the nil error.
    - The remote store is a state [St] that only the connection's [Do]
      changes; every command handed to [Do] is appended to [issued].
    - The [for { ... }] loops of [Clear] and [GetKeys] end only when the
      store answers with cursor 0, so they are run with a bound [fuel] on
      the number of iterations; [OutOfFuel] is the outcome of a run that is
      cut before the loop ended. *)

From Stdlib Require Import ZArith List String Ascii Bool Arith Lia.
Import ListNotations.
Open Scope string_scope.

(** ** Go values *)

(** Dynamic values: command arguments ([args ...interface{}]) and replies
    ([reply interface{}]).  redigo maps the store's integer to [int64],
    simple string to [string], bulk string to [[]byte], array to
    [[]interface{}], error to [redis.Error]. *)
#[warnings="-register-all"]
Inductive iface : Type :=
| INil
| IInt (n : Z)
| IInt64 (n : Z)
| IString (s : string)
| IBytes (b : string)
| IRedisError (msg : string)
| ISlice (l : list iface).

(** A slice header is either nil or points to elements.  The distinction is
    kept for the variadic [namespace ...string] parameter: a call that omits
    it receives [nil_slice], a call that spreads an empty list receives
    [make_slice []]. *)
Inductive slice (A : Type) : Type :=
| nil_slice
| make_slice (l : list A).
Arguments nil_slice {A}.
Arguments make_slice {A} l.

Definition elems {A} (s : slice A) : list A :=
  match s with
  | nil_slice => []
  | make_slice l => l
  end.

Definition len {A} (s : slice A) : nat := List.length (elems s).

(** [strings.Join(elems, sep)] *)
Definition strings_Join (e : slice string) (sep : string) : string :=
  String.concat sep (elems e).

(** Non-nil error values.  [NotInitializedError] is the package variable
    (compared by identity in Go, hence a constructor of its own); [Errorf]
    is a value built by [fmt.Errorf]; [ConnError] is an error that comes out
    of the connection, the store or a redigo helper. *)
Inductive error : Type :=
| NotInitializedError
| Errorf (msg : string)
| ConnError (msg : string).

(** [err.Error()], also what the verb [%v] prints for an error. *)
Definition Error (e : error) : string :=
  match e with
  | NotInitializedError => "cache was not initialized"
  | Errorf msg => msg
  | ConnError msg => msg
  end.

(** [const DefaultSeparator = ":"] *)
Definition DefaultSeparator : string := ":".

(** [time.Second], in nanoseconds; a [time.Duration] is an [int64]. *)
Definition time_Second : Z := 1000000000.

Definition int64_range (x : Z) : Prop := (- 2 ^ 63 <= x < 2 ^ 63)%Z.

(** Conversion [int(x)] of an [int64] to the platform's [int] of [intSize]
    bits (32 or 64): the low bits, read as a signed number. *)
Definition int_of_int64 (intSize : Z) (x : Z) : Z :=
  ((x + 2 ^ (intSize - 1)) mod 2 ^ intSize - 2 ^ (intSize - 1))%Z.

(** ** Package fmt: [Sprintf] of a format with no operands

    [Clear] and [GetKeys] call [fmt.Sprintf(ns)]: the namespaced pattern is
    the format and there is no operand.  This is [doPrintf] (a method of
    [pp]) of the Go standard library with [len(a) = 0]; flags, width and
    precision only steer the printing of an operand and are parsed but not
    kept. *)
Module fmt.

Definition percentBangString := "%!".
Definition missingString := "(MISSING)".
Definition badIndexString := "(BADINDEX)".
Definition noVerbString := "%!(NOVERB)".
Definition badWidthString := "%!(BADWIDTH)".
Definition badPrecString := "%!(BADPREC)".

(** [len(a)] of the call *)
Definition numArgs : Z := 0.

Definition byte_val (c : ascii) : Z := Z.of_N (N_of_ascii c).

Definition is_digit (c : ascii) : bool :=
  ((48 <=? byte_val c) && (byte_val c <=? 57))%Z.

(** [tooLarge]: [x > 1e6 || x < -1e6] *)
Definition tooLarge (x : Z) : bool := ((1000000 <? x) || (x <? -1000000))%Z.

(** [parsenum(s, start, end)] on the piece [s[start:end]]: the number read,
    whether a digit was read, and what is left of the piece.  On overflow
    the Go code returns [end] as the new index: nothing is left. *)
Fixpoint parsenum_from (s : string) (num : Z) (isnum : bool) : Z * bool * string :=
  match s with
  | String c s' =>
      if is_digit c then
        if tooLarge num then (0%Z, false, "")
        else parsenum_from s' (num * 10 + (byte_val c - 48))%Z true
      else (num, isnum, s)
  | EmptyString => (num, isnum, s)
  end.

Definition parsenum (s : string) : Z * bool * string := parsenum_from s 0%Z false.

(** [s[n:]] *)
Fixpoint drop (n : nat) (s : string) : string :=
  match n, s with
  | O, _ => s
  | S n', String _ s' => drop n' s'
  | S _, EmptyString => EmptyString
  end.

(** Index of the first ["]"] of [s], counted from [i]. *)
Fixpoint find_close (s : string) (i : nat) : option nat :=
  match s with
  | EmptyString => None
  | String c s' => if Ascii.eqb c "]" then Some i else find_close s' (S i)
  end.

(** [parseArgNumber(format)], called with [format[0] = '[']: index, number
    of bytes to skip, and whether the bracket holds a number. *)
Definition parseArgNumber (format : string) : Z * nat * bool :=
  if (String.length format <? 3)%nat then (0%Z, 1, false)
  else
    match find_close (drop 1 format) 1 with
    | Some i =>
        let '(width, ok, rest) := parsenum (substring 1 (i - 1) format) in
        if negb ok || negb (String.eqb rest "") then (0%Z, i + 1, false)
        else ((width - 1)%Z, i + 1, true)
    | None => (0%Z, 1, false)
    end.

(** The format after its first byte when this byte is [c]: the test
    [i < end && format[i] == c] and the step [i++]. *)
Definition after (c : ascii) (s : string) : option string :=
  match s with
  | String c' s' => if Ascii.eqb c' c then Some s' else None
  | EmptyString => None
  end.

(** [argNumber] (a method of [pp]): the format from the new index on,
    [found], and the new value of [p.goodArgNum]. *)
Definition argNumber (format : string) (goodArgNum : bool) : string * bool * bool :=
  match after "[" format with
  | Some _ =>
      let '(index, wid, ok) := parseArgNumber format in
      if (ok && (0 <=? index) && (index <? numArgs))%Z%bool
      then (drop wid format, true, goodArgNum)
      else (drop wid format, ok, false)
  | None => (format, false, goodArgNum)
  end.

(** The flags [#0+- ]. *)
Definition is_flag (c : ascii) : bool :=
  Ascii.eqb c "#" || Ascii.eqb c "0" || Ascii.eqb c "+" || Ascii.eqb c "-"
  || Ascii.eqb c " ".

(** The [simpleFormat] loop: with no operand left the fast path for simple
    verbs is never taken, and the loop stops at the first byte that is not
    a flag. *)
Fixpoint skip_flags (s : string) : string :=
  match s with
  | String c s' => if is_flag c then skip_flags s' else s
  | EmptyString => s
  end.

(** [utf8.RuneError] as [writeRune] encodes it. *)
Definition runeError : string :=
  String (ascii_of_nat 239) (String (ascii_of_nat 191) (String (ascii_of_nat 189) "")).

Definition between (lo hi : Z) (c : ascii) : bool :=
  ((lo <=? byte_val c) && (byte_val c <=? hi))%Z.

(** Size and accepted range of the second byte for a leading byte of a
    multi-byte sequence (tables [first] and [acceptRanges] of
    unicode/utf8); [None] for a byte that cannot lead. *)
Definition utf8_first (c : ascii) : option (nat * Z * Z) :=
  let b := byte_val c in
  if ((194 <=? b) && (b <=? 223))%Z then Some (2%nat, 128, 191)%Z
  else if (b =? 224)%Z then Some (3%nat, 160, 191)%Z
  else if ((225 <=? b) && (b <=? 236))%Z then Some (3%nat, 128, 191)%Z
  else if (b =? 237)%Z then Some (3%nat, 128, 159)%Z
  else if ((238 <=? b) && (b <=? 239))%Z then Some (3%nat, 128, 191)%Z
  else if (b =? 240)%Z then Some (4%nat, 144, 191)%Z
  else if ((241 <=? b) && (b <=? 243))%Z then Some (4%nat, 128, 191)%Z
  else if (b =? 244)%Z then Some (4%nat, 128, 143)%Z
  else None.

(** The verb at the head of a non-empty format: the bytes that [writeRune]
    prints for it and the format after it.  A byte below [utf8.RuneSelf] is
    the verb itself; otherwise [utf8.DecodeRuneInString] reads a whole
    sequence, which is printed back as it is, or yields [RuneError] of
    width 1. *)
Definition decode_verb (c : ascii) (s : string) : string * string :=
  if (byte_val c <? 128)%Z then (String c "", s)
  else
    match utf8_first c with
    | None => (runeError, s)
    | Some (sz, lo, hi) =>
        match s with
        | String c1 s1 =>
            if negb (between lo hi c1) then (runeError, s)
            else if (sz <=? 2)%nat then (String c (String c1 ""), s1)
            else
              match s1 with
              | String c2 s2 =>
                  if negb (between 128 191 c2) then (runeError, s)
                  else if (sz <=? 3)%nat then (String c (String c1 (String c2 "")), s2)
                  else
                    match s2 with
                    | String c3 s3 =>
                        if negb (between 128 191 c3) then (runeError, s)
                        else (String c (String c1 (String c2 (String c3 ""))), s3)
                    | EmptyString => (runeError, s)
                    end
              | EmptyString => (runeError, s)
              end
        | EmptyString => (runeError, s)
        end
    end.

(** "Do we have width?": what is written ([badWidthString] for a [*], as
    no operand can give the width), the format left, [afterIndex] and
    [p.goodArgNum]. *)
Definition width (s : string) (afterIndex goodArgNum : bool)
  : string * string * bool * bool :=
  match after "*" s with
  | Some s' => (badWidthString, s', false, goodArgNum)
  | None =>
      let '(_, widPresent, s') := parsenum s in
      ("", s', afterIndex, if afterIndex && widPresent then false else goodArgNum)
  end.

(** "Do we have precision?", under the test [i+1 < end && format[i] == '.']:
    a ['.'] opens a precision only when a byte follows it. *)
Definition precision (s : string) (afterIndex goodArgNum : bool)
  : string * string * bool * bool :=
  match after "." s with
  | Some (String _ _ as s') =>
      let goodArgNum := if afterIndex then false else goodArgNum in
      let '(s', afterIndex, goodArgNum) := argNumber s' goodArgNum in
      match after "*" s' with
      | Some s'' => (badPrecString, s'', false, goodArgNum)
      | None =>
          let '(_, _, s'') := parsenum s' in
          ("", s'', afterIndex, goodArgNum)
      end
  | _ => ("", s, afterIndex, goodArgNum)
  end.

(** The verb and the [switch] on it: ["%"] for the verb ['%'], else
    [badArgNum] or [missingArg]; [noVerbString] at the end of the format. *)
Definition verb (s : string) (goodArgNum : bool) : string * string :=
  match s with
  | EmptyString => (noVerbString, "")
  | String c s' =>
      let '(v, rest) := decode_verb c s' in
      if String.eqb v "%" then ("%", rest)
      else if negb goodArgNum then (percentBangString ++ v ++ badIndexString, rest)
      else (percentBangString ++ v ++ missingString, rest)
  end.

(** One pass of the body of [formatLoop] from just after a ['%']: what is
    written to the buffer and the format that is left. *)
Definition directive (s : string) : string * string :=
  let s := skip_flags s in
  let '(s, afterIndex, goodArgNum) := argNumber s true in
  let '(w1, s, afterIndex, goodArgNum) := width s afterIndex goodArgNum in
  let '(w2, s, afterIndex, goodArgNum) := precision s afterIndex goodArgNum in
  let '(s, afterIndex, goodArgNum) :=
    if negb afterIndex then argNumber s goodArgNum else (s, afterIndex, goodArgNum) in
  let '(t, rest) := verb s goodArgNum in
  (w1 ++ w2 ++ t, rest).

(** [doPrintf(format, nil)]: bytes other than ['%'] are copied, a ['%']
    starts a directive.  Every step takes at least one byte of the format,
    so [length format] steps are enough. *)
Fixpoint doPrintf (fuel : nat) (format : string) : string :=
  match fuel with
  | O => ""
  | S fuel' =>
      match format with
      | EmptyString => ""
      | String c rest =>
          if Ascii.eqb c "%" then
            let '(out, rest') := directive rest in out ++ doPrintf fuel' rest'
          else String c (doPrintf fuel' rest)
      end
  end.

(** [fmt.Sprintf(format)] *)
Definition Sprintf (format : string) : string :=
  doPrintf (String.length format) format.

End fmt.

(** ** Package redigo/redis: the reply helpers and the connection

    The helpers are library code.  What the client relies on is their
    documented contract: "if err is not equal to nil, then the helper
    returns the zero value and err".  How a reply itself is converted is
    left to the instance. *)
Class Redigo : Type := {
  (** [redis.Values(reply, err)] *)
  redis_Values : iface -> option error -> list iface * option error;
  redis_Values_err : forall r e, redis_Values r (Some e) = ([], Some e);
  (** [redis.Bool(reply, err)] *)
  redis_Bool : iface -> option error -> bool * option error;
  redis_Bool_err : forall r e, redis_Bool r (Some e) = (false, Some e);
  (** [redis.Bytes(reply, err)] *)
  redis_Bytes : iface -> option error -> slice ascii * option error;
  redis_Bytes_err : forall r e, redis_Bytes r (Some e) = (nil_slice, Some e);
  (** [redis.Int(reply, err)] *)
  redis_Int : iface -> option error -> Z * option error;
  redis_Int_err : forall r e, redis_Int r (Some e) = (0%Z, Some e);
  (** [redis.String(reply, err)] *)
  redis_String : iface -> option error -> string * option error;
  redis_String_err : forall r e, redis_String r (Some e) = ("", Some e);
  (** [redis.Scan(values, &cursor, &keys)] with [keys []interface{}]: the
      values of [cursor] and [keys] after the call, and its error (the
      slice it returns is not used by the client). *)
  redis_Scan_keys : list iface -> Z -> list iface -> Z * list iface * option error;
  (** [redis.Scan(values, &cursor, &items)] with [items []string] *)
  redis_Scan_items : list iface -> Z -> list string -> Z * list string * option error
}.

(** Outcome of a run of a loop that is cut after [fuel] iterations. *)
Inductive run (A : Type) : Type :=
| Returns (a : A)
| OutOfFuel.
Arguments Returns {A} a.
Arguments OutOfFuel {A}.

Section Client.

Context {redigo : Redigo}.

(** State of the remote store (and of whatever lies between it and the
    client). *)
Variable St : Type.

(** [var Separator = DefaultSeparator], read by every operation. *)
Variable Separator : string.

(** Width of [int] on the platform. *)
Variable intSize : Z.

(** A command as handed to [Do]: its name and its arguments. *)
Definition Command : Type := string * list iface.

(** [*redis.Pool].  A connection borrowed with [pool.Get()] answers [Do];
    a dial or borrow failure shows as the error of [Do]. *)
Record Pool : Type := { Do : St -> string -> list iface -> iface * option error * St }.

(** [type Cache struct { pool *redis.Pool }]; a [*Cache] is an
    [option Cache], a nil pointer is [None]. *)
Record Cache : Type := { pool : option Pool }.

(** [NewCacheFromPool] *)
Definition NewCacheFromPool (p : option Pool) : option Cache := Some {| pool := p |}.

Record World : Type := { store : St; issued : list Command }.

Definition M (A : Type) : Type := World -> A * World.

Definition ret {A} (a : A) : M A := fun w => (a, w).

Definition bind {A B} (m : M A) (k : A -> M B) : M B :=
  fun w => let (a, w') := m w in k a w'.

Notation "x <- m ;; k" := (bind m (fun x => k))
  (at level 61, m at next level, right associativity).
Notation "' p <- m ;; k" := (bind m (fun x => let 'p := x in k))
  (at level 61, p pattern, m at next level, right associativity).

(** [r.Do(commandName, args...)] on the connection borrowed from [p]. *)
Definition conn_Do (p : Pool) (commandName : string) (args : list iface)
  : M (iface * option error) :=
  fun w =>
    let '(reply, err, s') := Do p (store w) commandName args in
    ((reply, err), {| store := s'; issued := (issued w ++ [(commandName, args)])%list |}).

(** The guard [c == nil || c.pool == nil]: the pool when it is passed. *)
Definition usable (c : option Cache) : option Pool :=
  match c with
  | None => None
  | Some c' => pool c'
  end.

(** The lines
[[
    ns := key
    if len(namespace) > 0 {
        ns = fmt.Sprintf("%s:%s", strings.Join(namespace, Separator), ns)
    }
]]
    shared by every keyed operation. *)
Definition namespaced (key : string) (namespace : slice string) : string :=
  if (0 <? len namespace)%nat
  then strings_Join namespace Separator ++ ":" ++ key
  else key.

Definition Ping (c : option Cache) : M (option error) :=
  match usable c with
  | None => ret (Some NotInitializedError)
  | Some r =>
      '(_, err) <- conn_Do r "PING" [] ;;
      match err with
      | Some e => ret (Some (Errorf ("failed to 'PING' db, reason: " ++ Error e)))
      | None => ret None
      end
  end.

Definition Get (c : option Cache) (key : string) (namespace : slice string)
  : M (iface * option error) :=
  match usable c with
  | None => ret (INil, Some NotInitializedError)
  | Some r =>
      let ns := namespaced key namespace in
      '(value, err) <- conn_Do r "GET" [IString ns] ;;
      match err with
      | Some e =>
          ret (INil, Some (Errorf ("failed to retrieve key '" ++ ns ++ "', reason " ++ Error e)))
      | None => ret (value, None)
      end
  end.

Definition GetBool (c : option Cache) (key : string) (namespace : slice string)
  : M (bool * option error) :=
  '(reply, err) <- Get c key namespace ;; ret (redis_Bool reply err).

Definition GetBytes (c : option Cache) (key : string) (namespace : slice string)
  : M (slice ascii * option error) :=
  '(reply, err) <- Get c key namespace ;; ret (redis_Bytes reply err).

Definition GetInt (c : option Cache) (key : string) (namespace : slice string)
  : M (Z * option error) :=
  '(reply, err) <- Get c key namespace ;; ret (redis_Int reply err).

Definition GetString (c : option Cache) (key : string) (namespace : slice string)
  : M (string * option error) :=
  '(reply, err) <- Get c key namespace ;; ret (redis_String reply err).

Definition Set_ (c : option Cache) (key : string) (value : iface)
  (namespace : slice string) : M (option error) :=
  match usable c with
  | None => ret (Some NotInitializedError)
  | Some r =>
      let ns := namespaced key namespace in
      '(_, err) <- conn_Do r "SET" [IString ns; value] ;;
      match err with
      | Some e =>
          ret (Some (Errorf ("failed to set value to key '" ++ ns ++ "', reason: " ++ Error e)))
      | None => ret None
      end
  end.

(** The second argument of SETEX: [int(duration/time.Second)].  Integer
    division in Go truncates toward zero. *)
Definition SetEx_seconds (duration : Z) : Z :=
  int_of_int64 intSize (Z.quot duration time_Second).

Definition SetEx (c : option Cache) (key : string) (value : iface) (duration : Z)
  (namespace : slice string) : M (option error) :=
  match usable c with
  | None => ret (Some NotInitializedError)
  | Some r =>
      let ns := namespaced key namespace in
      '(_, err) <- conn_Do r "SETEX" [IString ns; IInt (SetEx_seconds duration); value] ;;
      match err with
      | Some e =>
          ret (Some (Errorf ("failed to set value to key '" ++ ns ++ "', reason: " ++ Error e)))
      | None => ret None
      end
  end.

Definition Exists (c : option Cache) (key : string) (namespace : slice string)
  : M (bool * option error) :=
  match usable c with
  | None => ret (false, Some NotInitializedError)
  | Some r =>
      let ns := namespaced key namespace in
      '(reply, err0) <- conn_Do r "EXISTS" [IString ns] ;;
      let '(ok, err) := redis_Bool reply err0 in
      match err with
      | Some e =>
          ret (false,
               Some (Errorf ("failed to check key '" ++ ns ++ "' existance, reason: " ++ Error e)))
      | None => ret (ok, None)
      end
  end.

Definition Delete (c : option Cache) (key : string) (namespace : slice string)
  : M (option error) :=
  match usable c with
  | None => ret (Some NotInitializedError)
  | Some r =>
      let ns := namespaced key namespace in
      '(_, err) <- conn_Do r "DEL" [IString ns] ;;
      match err with
      | Some e => ret (Some (Errorf ("failed to delete key '" ++ ns ++ "', reason: " ++ Error e)))
      | None => ret None
      end
  end.

(** The SCAN command of both loops; the pattern goes through
    [fmt.Sprintf]. *)
Definition scan_command (cursor : Z) (ns : string) : Command :=
  ("SCAN", [IInt64 cursor; IString "MATCH"; IString (fmt.Sprintf ns)]).

(** [const msg = "failed to clear db, reason %v"] applied to [err]. *)
Definition Clear_msg (e : error) : error :=
  Errorf ("failed to clear db, reason " ++ Error e).

(** The [for] loop of [Clear], entered with the current [cursor] and
    [keys]. *)
Fixpoint Clear_loop (fuel : nat) (r : Pool) (ns : string) (cursor : Z)
  (keys : list iface) : M (run (option error)) :=
  match fuel with
  | O => ret OutOfFuel
  | S fuel' =>
      '(reply, err0) <- conn_Do r (fst (scan_command cursor ns)) (snd (scan_command cursor ns)) ;;
      let '(values, err) := redis_Values reply err0 in
      match err with
      | Some e => ret (Returns (Some (Clear_msg e)))
      | None =>
          let '(cursor, keys, err) := redis_Scan_keys values cursor keys in
          match err with
          | Some e => ret (Returns (Some (Clear_msg e)))
          | None =>
              err <- (if (0 <? List.length keys)%nat
                      then '(_, err) <- conn_Do r "UNLINK" keys ;; ret err
                      else ret None) ;;
              match err with
              | Some e => ret (Returns (Some (Clear_msg e)))
              | None =>
                  if (cursor =? 0)%Z then ret (Returns None)
                  else Clear_loop fuel' r ns cursor keys
              end
          end
      end
  end.

Definition Clear (fuel : nat) (c : option Cache) (pattern : string)
  (namespace : slice string) : M (run (option error)) :=
  match usable c with
  | None => ret (Returns (Some NotInitializedError))
  | Some r => Clear_loop fuel r (namespaced pattern namespace) 0%Z []
  end.

Definition ClearAll (fuel : nat) (c : option Cache) (namespace : slice string)
  : M (run (option error)) :=
  Clear fuel c "*" namespace.

(** [const msg = "failed to retrieve keys, reason %v"] applied to [err]. *)
Definition GetKeys_msg (e : error) : error :=
  Errorf ("failed to retrieve keys, reason " ++ Error e).

(** The [for] loop of [GetKeys], entered with the current [cursor],
    [items] and [keys]. *)
Fixpoint GetKeys_loop (fuel : nat) (r : Pool) (ns : string) (cursor : Z)
  (items : list string) (keys : list string) : M (run (list string * option error)) :=
  match fuel with
  | O => ret OutOfFuel
  | S fuel' =>
      '(reply, err0) <- conn_Do r (fst (scan_command cursor ns)) (snd (scan_command cursor ns)) ;;
      let '(values, err) := redis_Values reply err0 in
      match err with
      | Some e => ret (Returns ([], Some (GetKeys_msg e)))
      | None =>
          let '(cursor, items, err) := redis_Scan_items values cursor items in
          match err with
          | Some e => ret (Returns ([], Some (GetKeys_msg e)))
          | None =>
              let keys := (keys ++ items)%list in
              if (cursor =? 0)%Z then ret (Returns (keys, None))
              else GetKeys_loop fuel' r ns cursor items keys
          end
      end
  end.

Definition GetKeys (fuel : nat) (c : option Cache) (pattern : string)
  (namespace : slice string) : M (run (list string * option error)) :=
  match usable c with
  | None => ret (Returns ([], Some NotInitializedError))
  | Some r => GetKeys_loop fuel r (namespaced pattern namespace) 0%Z [] []
  end.

Definition GetAllKeys (fuel : nat) (c : option Cache) (namespace : slice string)
  : M (run (list string * option error)) :=
  GetKeys fuel c "*" namespace.

End Client.

Arguments Do {St} p _ _ _.
Arguments pool {St} c.
Arguments store {St} w.
Arguments issued {St} w.
Arguments Build_World {St} _ _.
Arguments usable {St} c.
Arguments conn_Do {St} p commandName args _.
Arguments Ping {St} c _.
Arguments Get {St} Separator c key namespace _.
Arguments GetBool {redigo St} Separator c key namespace _.
Arguments GetBytes {redigo St} Separator c key namespace _.
Arguments GetInt {redigo St} Separator c key namespace _.
Arguments GetString {redigo St} Separator c key namespace _.
Arguments Set_ {St} Separator c key value namespace _.
Arguments SetEx {St} Separator intSize c key value duration namespace _.
Arguments Exists {redigo St} Separator c key namespace _.
Arguments Delete {St} Separator c key namespace _.
Arguments Clear_loop {redigo St} fuel r ns cursor keys _.
Arguments Clear {redigo St} Separator fuel c pattern namespace _.
Arguments ClearAll {redigo St} Separator fuel c namespace _.
Arguments GetKeys_loop {redigo St} fuel r ns cursor items keys _.
Arguments GetKeys {redigo St} Separator fuel c pattern namespace _.
Arguments GetAllKeys {redigo St} Separator fuel c namespace _.

(** ** What the store answers to a run of SCANs

    The loops are specified against the answers of the store: a session
    lists, page after page, what the store returned to the SCAN issued at
    the cursor of the page before, up to the page that carries cursor 0 or
    to the first failure. *)
Section Sessions.

Context {redigo : Redigo} {St : Type}.
Variable r : Pool St.
Variable ns : string.

(** One SCAN round trip of [GetKeys] as the store and the helpers answer
    it: an error, or the next cursor with the page of keys. *)
Definition scan_items (st : St) (cursor : Z) (items : list string)
  : (error + Z * list string) * St :=
  let '(reply, err0, st') := Do r st (fst (scan_command cursor ns)) (snd (scan_command cursor ns)) in
  let '(values, err) := redis_Values reply err0 in
  match err with
  | Some e => (inl e, st')
  | None =>
      let '(cursor', items', err) := redis_Scan_items values cursor items in
      match err with
      | Some e => (inl e, st')
      | None => (inr (cursor', items'), st')
      end
  end.

(** Pages of a [GetKeys] session started at [cursor]: every page but the
    last carries a cursor other than 0; the session ends with the page of
    cursor 0 ([None]) or with a failed SCAN ([Some e]). *)
Inductive GetKeys_session
  : St -> Z -> list string -> list (Z * list string) -> option error -> St -> Prop :=
| gs_fails st cursor items e st' :
    scan_items st cursor items = (inl e, st') ->
    GetKeys_session st cursor items [] (Some e) st'
| gs_last st cursor items page st' :
    scan_items st cursor items = (inr (0%Z, page), st') ->
    GetKeys_session st cursor items [(0%Z, page)] None st'
| gs_more st cursor items cursor' page st1 pages oe st' :
    scan_items st cursor items = (inr (cursor', page), st1) ->
    cursor' <> 0%Z ->
    GetKeys_session st1 cursor' page pages oe st' ->
    GetKeys_session st cursor items ((cursor', page) :: pages) oe st'.

(** The SCAN commands of a session: one per page, each at the cursor of
    the page before, and one more for a SCAN that failed. *)
Fixpoint scan_commands (cursor : Z) (cursors : list Z) (failed : bool) : list Command :=
  match cursors with
  | [] => if failed then [scan_command cursor ns] else []
  | c :: cs => scan_command cursor ns :: scan_commands c cs failed
  end.

(** One SCAN round trip of [Clear]. *)
Definition scan_keys (st : St) (cursor : Z) (keys : list iface)
  : (error + Z * list iface) * St :=
  let '(reply, err0, st') := Do r st (fst (scan_command cursor ns)) (snd (scan_command cursor ns)) in
  let '(values, err) := redis_Values reply err0 in
  match err with
  | Some e => (inl e, st')
  | None =>
      let '(cursor', keys', err) := redis_Scan_keys values cursor keys in
      match err with
      | Some e => (inl e, st')
      | None => (inr (cursor', keys'), st')
      end
  end.

(** How a [Clear] session ends. *)
Inductive ending : Type :=
| Finished
| ScanFailed (e : error)
| UnlinkFailed (e : error).

(** The store takes the UNLINK of a page that has keys; nothing is asked of
    it for a page without keys. *)
Definition unlinked (st : St) (page : list iface) (st' : St) : Prop :=
  match page with
  | [] => st' = st
  | _ :: _ => exists reply, Do r st "UNLINK" page = (reply, None, st')
  end.

(** Pages of a [Clear] session started at [cursor]. *)
Inductive Clear_session
  : St -> Z -> list iface -> list (Z * list iface) -> ending -> St -> Prop :=
| cs_scan_fails st cursor keys e st' :
    scan_keys st cursor keys = (inl e, st') ->
    Clear_session st cursor keys [] (ScanFailed e) st'
| cs_unlink_fails st cursor keys cursor' page st1 reply e st' :
    scan_keys st cursor keys = (inr (cursor', page), st1) ->
    page <> [] ->
    Do r st1 "UNLINK" page = (reply, Some e, st') ->
    Clear_session st cursor keys [(cursor', page)] (UnlinkFailed e) st'
| cs_last st cursor keys page st1 st' :
    scan_keys st cursor keys = (inr (0%Z, page), st1) ->
    unlinked st1 page st' ->
    Clear_session st cursor keys [(0%Z, page)] Finished st'
| cs_more st cursor keys cursor' page st1 st2 pages en st' :
    scan_keys st cursor keys = (inr (cursor', page), st1) ->
    cursor' <> 0%Z ->
    unlinked st1 page st2 ->
    Clear_session st2 cursor' page pages en st' ->
    Clear_session st cursor keys ((cursor', page) :: pages) en st'.

(** The UNLINK of a page: one command for a page with keys, none for a
    page without. *)
Definition unlink_commands (page : list iface) : list Command :=
  match page with
  | [] => []
  | _ :: _ => [("UNLINK", page)]
  end.

(** The commands of a [Clear] session, in order. *)
Fixpoint clear_commands (cursor : Z) (pages : list (Z * list iface)) (en : ending)
  : list Command :=
  match pages with
  | [] => match en with
          | ScanFailed _ => [scan_command cursor ns]
          | _ => []
          end
  | (cursor', page) :: rest =>
      (scan_command cursor ns :: unlink_commands page) ++ clear_commands cursor' rest en
  end.

(** What [Clear] returns at the end of a session. *)
Definition clear_result (en : ending) : option error :=
  match en with
  | Finished => None
  | ScanFailed e => Some (Clear_msg e)
  | UnlinkFailed e => Some (Clear_msg e)
  end.

End Sessions.

Definition is_unlink (c : Command) : bool := String.eqb (fst c) "UNLINK".
Definition is_scan (c : Command) : bool := String.eqb (fst c) "SCAN".

(** Every ['%'] of [s] is followed by ['!']. *)
Fixpoint percent_bang (s : string) : bool :=
  match s with
  | EmptyString => true
  | String c s' =>
      if Ascii.eqb c "%" then
        match s' with
        | String c' _ => Ascii.eqb c' "!" && percent_bang s'
        | EmptyString => false
        end
      else percent_bang s'
  end.

(** Every ['%'] of [s] is followed by ['!'] or ends [s]. *)
Fixpoint percent_bang_or_end (s : string) : bool :=
  match s with
  | EmptyString => true
  | String c s' =>
      if Ascii.eqb c "%" then
        match s' with
        | String c' _ => Ascii.eqb c' "!" && percent_bang_or_end s'
        | EmptyString => true
        end
      else percent_bang_or_end s'
  end.

(** [s'] is what is left of [s] after some bytes were taken, the first of
    which is not ['!']. *)
Definition moved (s s' : string) : Prop :=
  exists c t D, s = String c t /\ c <> "!"%char /\ t = D ++ s'.

(** The commands that the loop of [Clear] can issue for the pattern [ns]. *)
Definition Clear_command (ns : string) (cmd : Command) : Prop :=
  (exists cursor, cmd = scan_command cursor ns)
  \/ (exists k keys, cmd = ("UNLINK", k :: keys)).

(** No byte of [s] is ['%']. *)
Fixpoint no_percent (s : string) : bool :=
  match s with
  | EmptyString => true
  | String c s' => negb (Ascii.eqb c "%") && no_percent s'
  end.

(** The page has keys: [len(keys) > 0]. *)
Definition has_keys (page : list iface) : bool := (0 <? List.length page)%nat.

(** [needle] occurs in [hay]. *)
Fixpoint contains (needle hay : string) : bool :=
  prefix needle hay ||
  match hay with
  | EmptyString => false
  | String _ hay' => contains needle hay'
  end.

(** The text of [returned] holds the text of the store's error [e]. *)
Definition wraps (returned e : error) : bool := contains (Error e) (Error returned).

(** The text of [returned] holds the text of the store's error [e] and
    the effective key. *)
Definition wraps_with_key (returned e : error) (key : string) : bool :=
  contains (Error e) (Error returned) && contains key (Error returned).

(** The effective key as the specification words it: the namespace
    segments joined with the separator, then the separator, then the base
    key; the base key alone without segments. *)
Definition spec_key (Separator : string) (key : string) (segments : list string) : string :=
  match segments with
  | [] => key
  | _ :: _ => String.concat Separator segments ++ Separator ++ key
  end.

(** The client is nil or its pool is nil. *)
Definition not_initialized {St} (c : option (Cache St)) : Prop :=
  c = None \/ exists c', c = Some c' /\ pool c' = None.

(** ** A store that plays a script

    For concrete runs: the store answers the n-th command with the n-th
    entry of a script, whatever the command, and with a connection error
    once the script is over. *)
Definition scripted : Pool (list (iface * option error)) :=
  {| Do := fun st _ _ =>
             match st with
             | [] => (INil, Some (ConnError "EOF"), [])
             | (reply, err) :: st' => (reply, err, st')
             end |}.

(** Decimal digits of a bulk string, as the cursor of a SCAN reply. *)
Fixpoint digits_from (s : string) (acc : Z) : option Z :=
  match s with
  | EmptyString => Some acc
  | String c s' =>
      if fmt.is_digit c then digits_from s' (acc * 10 + (fmt.byte_val c - 48))%Z
      else None
  end.

Definition bulk_strings (l : list iface) : list string :=
  flat_map (fun v => match v with IBytes b => [b] | IString s => [s] | _ => [] end) l.

Definition decode_cursor (v : iface) (cursor : Z) : Z * option error :=
  match v with
  | IInt64 n => (n, None)
  | IBytes EmptyString => (cursor, Some (ConnError "redigo.Scan: cannot assign to dest 0"))
  | IBytes b => match digits_from b 0 with
                | Some n => (n, None)
                | None => (cursor, Some (ConnError "redigo.Scan: cannot assign to dest 0"))
                end
  | _ => (cursor, Some (ConnError "redigo.Scan: cannot assign to dest 0"))
  end.

(** An instance of the helpers for concrete runs: the conversions follow
    the tables of the redigo documentation; the two [Scan] helpers take the
    reply of a SCAN (a cursor, then an array of keys) and refuse anything
    else. *)
#[refine] Instance table_redigo : Redigo := {|
  redis_Values reply err :=
    match err, reply with
    | Some e, _ => ([], Some e)
    | None, ISlice l => (l, None)
    | None, INil => ([], Some (ConnError "redigo: nil returned"))
    | None, IRedisError msg => ([], Some (ConnError msg))
    | None, _ => ([], Some (ConnError "redigo: unexpected type for Values"))
    end;
  redis_Bool reply err :=
    match err, reply with
    | Some e, _ => (false, Some e)
    | None, IInt64 n => (negb (n =? 0)%Z, None)
    | None, INil => (false, Some (ConnError "redigo: nil returned"))
    | None, IRedisError msg => (false, Some (ConnError msg))
    | None, _ => (false, Some (ConnError "redigo: unexpected type for Bool"))
    end;
  redis_Bytes reply err :=
    match err, reply with
    | Some e, _ => (nil_slice, Some e)
    | None, IBytes b => (make_slice (list_ascii_of_string b), None)
    | None, IString s => (make_slice (list_ascii_of_string s), None)
    | None, INil => (nil_slice, Some (ConnError "redigo: nil returned"))
    | None, IRedisError msg => (nil_slice, Some (ConnError msg))
    | None, _ => (nil_slice, Some (ConnError "redigo: unexpected type for Bytes"))
    end;
  redis_Int reply err :=
    match err, reply with
    | Some e, _ => (0%Z, Some e)
    | None, IInt64 n => (n, None)
    | None, INil => (0%Z, Some (ConnError "redigo: nil returned"))
    | None, IRedisError msg => (0%Z, Some (ConnError msg))
    | None, _ => (0%Z, Some (ConnError "redigo: unexpected type for Int"))
    end;
  redis_String reply err :=
    match err, reply with
    | Some e, _ => ("", Some e)
    | None, IBytes b => (b, None)
    | None, IString s => (s, None)
    | None, INil => ("", Some (ConnError "redigo: nil returned"))
    | None, IRedisError msg => ("", Some (ConnError msg))
    | None, _ => ("", Some (ConnError "redigo: unexpected type for String"))
    end;
  redis_Scan_keys values cursor keys :=
    match values with
    | v0 :: ISlice l :: _ =>
        let (c, err) := decode_cursor v0 cursor in
        match err with
        | Some e => (c, keys, Some e)
        | None => (c, l, None)
        end
    | _ => (cursor, keys, Some (ConnError "redigo.Scan: array short"))
    end;
  redis_Scan_items values cursor items :=
    match values with
    | v0 :: ISlice l :: _ =>
        let (c, err) := decode_cursor v0 cursor in
        match err with
        | Some e => (c, items, Some e)
        | None => (c, bulk_strings l, None)
        end
    | _ => (cursor, items, Some (ConnError "redigo.Scan: array short"))
    end
|}.
Proof. all: reflexivity. Defined.

(** A SCAN reply as the store sends it: the cursor as a bulk string and the
    array of keys. *)
Definition scan_reply (cursor : string) (keys : list string) : iface * option error :=
  (ISlice [IBytes cursor; ISlice (map IBytes keys)], None).

(** The store fails the command with the error [msg]. *)
Definition failure (msg : string) : iface * option error :=
  (INil, Some (ConnError msg)).

(** ** The rest of the package: constructors, accessor, tests *)

(** [func (c *Cache) Pool() *redis.Pool { return c.pool }].  Unlike the
    operations, the accessor reads [c.pool] without a test on [c]: on a nil
    receiver the read is a nil dereference and the program panics, which is
    the outer [None]. *)
Definition Cache_Pool {St} (c : option (Cache St)) : option (option (Pool St)) :=
  match c with
  | None => None
  | Some c' => Some (pool c')
  end.

(** An option of [redis.Dial]. *)
Inductive DialOption : Type :=
| DialUsername (username : string)
| DialPassword (password : string).

(** A call [redis.Dial(network, address, options...)]. *)
Record DialCall : Type :=
  { network : string; address : string; options : list DialOption }.

(** [cred[i]], read under a guard on [len(cred)]. *)
Definition cred_at (cred : slice string) (i : nat) : string := nth i (elems cred) "".

(** The [Dial] closure of [NewCache]: the call it makes for [host] and the
    credentials [cred ...string]. *)
Definition NewCache_Dial (host : string) (cred : slice string) : DialCall :=
  if (2 <=? len cred)%nat then
    {| network := "tcp"; address := host;
       options := [DialUsername (cred_at cred 0); DialPassword (cred_at cred 1)] |}
  else if (len cred =? 1)%nat then
    {| network := "tcp"; address := host; options := [DialPassword (cred_at cred 0)] |}
  else
    {| network := "tcp"; address := host; options := [] |}.

(** The [TestOnBorrow] closure of [NewCache], on the connection [conn]
    (the time of the last use is not read):
    [_, err := c.Do("PING"); return err]. *)
Definition NewCache_TestOnBorrow {St} (conn : Pool St) : M St (option error) :=
  bind St (conn_Do conn "PING" []) (fun x => ret St (snd x)).

(** The literal [&redis.Pool{...}] of [NewCache]. *)
Record PoolSettings (St : Type) : Type :=
  { MaxActive : Z;
    MaxIdle : Z;
    Wait : bool;
    Dial : DialCall;
    TestOnBorrow : Pool St -> M St (option error) }.
Arguments MaxActive {St} p.
Arguments MaxIdle {St} p.
Arguments Wait {St} p.
Arguments Dial {St} p.
Arguments TestOnBorrow {St} p _.

Definition NewCache_settings (St : Type) (host : string) (cred : slice string)
  : PoolSettings St :=
  {| MaxActive := 10;
     MaxIdle := 5;
     Wait := true;
     Dial := NewCache_Dial host cred;
     TestOnBorrow := NewCache_TestOnBorrow |}.

(** [NewCache(host, cred...)].  How redigo serves connections from the
    settings of a pool is library code: [redis_Pool]. *)
Definition NewCache {St} (redis_Pool : PoolSettings St -> Pool St)
  (host : string) (cred : slice string) : option (Cache St) :=
  NewCacheFromPool St (Some (redis_Pool (NewCache_settings St host cred))).

(** A call of [t.Errorf] or [t.Fatalf] in a test: the format and its
    operands, not formatted. *)
Inductive report : Type :=
| t_Errorf (format : string) (operands : list string)
| t_Fatalf (format : string) (operands : list string).

Section Tests.

Context {redigo : Redigo} {St : Type}.

(** [var Separator], as the tests find it. *)
Variable Separator : string.

(** [var c = NewCache("localhost:6379")] of the test file. *)
Variable c : option (Cache St).

(** [TestCache_Ping]: what the test reports. *)
Definition TestCache_Ping : M St (list report) :=
  bind St (Ping c) (fun err =>
  match err with
  | Some _ => ret St [t_Errorf "failed to ping redis" []]
  | None => ret St []
  end).

(** The body shared by [TestCache_SetAndGet] and
    [TestCache_SetAndGetWithNamespace]: [Set], then [GetString] and the
    comparison with [want].  [t.Fatalf] ends the test. *)
Definition set_and_get (stringKey want : string) (namespace : slice string)
  : M St (list report) :=
  bind St (Set_ Separator c stringKey (IString want) namespace) (fun err =>
  match err with
  | Some _ => ret St [t_Fatalf "failed to set value" []]
  | None =>
      bind St (GetString Separator c stringKey namespace) (fun x =>
      match snd x with
      | Some _ => ret St [t_Fatalf "failed to get value" []]
      | None =>
          if negb (String.eqb (fst x) want)
          then ret St [t_Errorf "want %q but got %q" [want; fst x]]
          else ret St []
      end)
  end).

Definition TestCache_SetAndGet : M St (list report) :=
  set_and_get "string_key" "Some random string" nil_slice.

Definition TestCache_SetAndGetWithNamespace : M St (list report) :=
  set_and_get "string_key" "Another random string" (make_slice ["SECRET-NAMESPACE"]).

End Tests.

Arguments TestCache_Ping {St} c _.
Arguments set_and_get {redigo St} Separator c stringKey want namespace _.
Arguments TestCache_SetAndGet {redigo St} Separator c _.
Arguments TestCache_SetAndGetWithNamespace {redigo St} Separator c _.

(** Every ['%'] doubled: the verb ['%'] of a format prints one ['%']. *)
Fixpoint escape_percent (s : string) : string :=
  match s with
  | EmptyString => EmptyString
  | String c s' =>
      if Ascii.eqb c "%" then String "%" (String "%" (escape_percent s'))
      else String c (escape_percent s')
  end.

(** ** Stores for concrete runs *)

(** A store that answers every command with a SCAN page of one key and
    the cursor 1: it never reports the end of the scan. *)
Definition endless : Pool unit :=
  {| Do := fun st _ _ => (fst (scan_reply "1" ["k"]), None, st) |}.

Fixpoint lookup (k : string) (m : list (string * string)) : option string :=
  match m with
  | [] => None
  | (k', v) :: m' => if String.eqb k' k then Some v else lookup k m'
  end.

(** A store that keeps strings under keys: SET, GET, EXISTS and DEL of one
    key, PING; anything else is refused. *)
Definition memory : Pool (list (string * string)) :=
  {| Do := fun st name args =>
       match name, args with
       | "PING", [] => (IString "PONG", None, st)
       | "SET", [IString k; IString v] => (IString "OK", None, (k, v) :: st)
       | "GET", [IString k] =>
           (match lookup k st with Some v => IBytes v | None => INil end, None, st)
       | "EXISTS", [IString k] =>
           (IInt64 (match lookup k st with Some _ => 1 | None => 0 end), None, st)
       | "DEL", [IString k] =>
           (IInt64 (match lookup k st with Some _ => 1 | None => 0 end), None,
            filter (fun kv => negb (String.eqb (fst kv) k)) st)
       | _, _ => (INil, Some (ConnError "ERR unknown command"), st)
       end |}.

(** * Properties *)

(** ** Formats without operands *)

Example Sprintf_plain : fmt.Sprintf "user:*" = "user:*".
Proof. reflexivity. Qed.

Example Sprintf_percent_d : fmt.Sprintf "a%db" = "a%!d(MISSING)b".
Proof. reflexivity. Qed.

Example Sprintf_percent_percent : fmt.Sprintf "100%%" = "100%".
Proof. reflexivity. Qed.

Example Sprintf_noverb : fmt.Sprintf "50%" = "50%!(NOVERB)".
Proof. reflexivity. Qed.

Example Sprintf_star : fmt.Sprintf "%*.*x|" = "%!(BADWIDTH)%!(BADPREC)%!x(MISSING)|".
Proof. reflexivity. Qed.

Example Sprintf_index : fmt.Sprintf "%[1]d %[x]%" = "%!d(BADINDEX) %".
Proof. reflexivity. Qed.

Example Sprintf_overflow : fmt.Sprintf "%12345678d tail" = "%!(NOVERB)".
Proof. reflexivity. Qed.

Example Sprintf_precision : fmt.Sprintf "%.2f %.[]" = "%!f(MISSING) %!](BADINDEX)".
Proof. reflexivity. Qed.

Example Sprintf_last_dot : fmt.Sprintf "%." = "%!.(MISSING)".
Proof. reflexivity. Qed.

Example Sprintf_bang : fmt.Sprintf "%!" = "%!!(MISSING)".
Proof. reflexivity. Qed.


(** ** Formats: what a directive takes and writes *)

Lemma string_app_assoc (a b c : string) : (a ++ b) ++ c = a ++ b ++ c.
Proof. induction a as [|ch a IH]; cbn; [reflexivity | now rewrite IH]. Qed.

Lemma string_app_nil_r (a : string) : a ++ "" = a.
Proof. induction a as [|ch a IH]; cbn; [reflexivity | now rewrite IH]. Qed.

Lemma string_app_length (a b : string) :
  String.length (a ++ b) = String.length a + String.length b.
Proof. induction a as [|ch a IH]; cbn; [reflexivity | now rewrite IH]. Qed.

Lemma string_app_inv_head (a b c : string) : a ++ b = a ++ c -> b = c.
Proof. induction a as [|ch a IH]; cbn; [trivial | intros H; injection H as H; auto]. Qed.


Lemma moved_app s s' D s'' : moved s s' -> s' = D ++ s'' -> moved s s''.
Proof.
  intros (c & t & D0 & -> & Hc & Ht) ->.
  exists c, t, (D0 ++ D). repeat split; [exact Hc | now rewrite string_app_assoc].
Qed.

Lemma moved_trans s s' s'' : moved s s' -> moved s' s'' -> moved s s''.
Proof.
  intros H (c & t & D & -> & _ & ->).
  apply (moved_app _ _ (String c D) s'' H). reflexivity.
Qed.

Lemma moved_shorter s s' : moved s s' -> String.length s' < String.length s.
Proof.
  intros (c & t & D & -> & _ & ->). cbn. rewrite string_app_length. lia.
Qed.

Lemma moved_consumed s s' :
  moved s s' -> exists c D, s = String c D ++ s' /\ c <> "!"%char.
Proof. intros (c & t & D & -> & Hc & ->). exists c, D. split; [reflexivity | exact Hc]. Qed.

Lemma drop_suffix n : forall s, exists D, s = D ++ fmt.drop n s.
Proof.
  induction n as [|n IH]; intros s.
  - exists "". reflexivity.
  - destruct s as [|c s]; [exists ""; reflexivity|].
    destruct (IH s) as [D HD]. exists (String c D). cbn. now rewrite <- HD.
Qed.

Lemma skip_flags_moved s : fmt.skip_flags s = s \/ moved s (fmt.skip_flags s).
Proof.
  induction s as [|c s IH]; [left; reflexivity|].
  cbn. destruct (fmt.is_flag c) eqn:Hf; [|left; reflexivity].
  right. exists c, s.
  assert (Hc : c <> "!"%char) by (intros ->; discriminate Hf).
  destruct IH as [-> | H].
  - exists "". repeat split; assumption.
  - destruct H as (c' & t & D & E & _ & E'). exists (String c' D).
    repeat split; [exact Hc|]. rewrite E at 1. cbn. now rewrite <- E'.
Qed.

Lemma after_Some c s s' : fmt.after c s = Some s' -> s = String c s'.
Proof.
  destruct s as [|c' t]; [discriminate|]. cbn.
  destruct (Ascii.eqb_spec c' c) as [-> | _]; [|discriminate].
  now intros [= ->].
Qed.

Lemma parseArgNumber_wid f :
  exists n, snd (fst (fmt.parseArgNumber f)) = S n.
Proof.
  unfold fmt.parseArgNumber.
  destruct (String.length f <? 3)%nat; [exists 0; reflexivity|].
  destruct (fmt.find_close (fmt.drop 1 f) 1) as [i|]; [|exists 0; reflexivity].
  destruct (fmt.parsenum (substring 1 (i - 1) f)) as [[width ok] rest].
  destruct (negb ok || negb (rest =? "")); exists i; cbn; f_equal; lia.
Qed.

(** [argNumber] either leaves everything as it was or takes a bracket. *)
Lemma argNumber_spec s g :
  (fmt.argNumber s g = (s, false, g))
  \/ moved s (fst (fst (fmt.argNumber s g))).
Proof.
  unfold fmt.argNumber. destruct (fmt.after "[" s) as [t|] eqn:Ha; [|left; reflexivity].
  right. apply after_Some in Ha. subst s.
  destruct (parseArgNumber_wid (String "[" t)) as [n Hn].
  destruct (fmt.parseArgNumber (String "[" t)) as [[index wid] ok]. cbn in Hn. subst wid.
  assert (H : moved (String "[" t) (fmt.drop (S n) (String "[" t))).
  { cbn [fmt.drop]. destruct (drop_suffix n t) as [D HD].
    exists "["%char, t, D. repeat split; [discriminate | exact HD]. }
  destruct (ok && (0 <=? index)%Z && (index <? fmt.numArgs)%Z); exact H.
Qed.

Lemma parsenum_from_spec : forall s num isnum,
  (snd (fmt.parsenum_from s num isnum) = s
   /\ snd (fst (fmt.parsenum_from s num isnum)) = isnum)
  \/ moved s (snd (fmt.parsenum_from s num isnum)).
Proof.
  induction s as [|c s IH]; intros num isnum; [left; split; reflexivity|].
  cbn. destruct (fmt.is_digit c) eqn:Hd; [|left; split; reflexivity].
  right.
  assert (Hc : c <> "!"%char) by (intros ->; discriminate Hd).
  destruct (fmt.tooLarge num).
  - exists c, s, s. repeat split; [exact Hc | now rewrite string_app_nil_r].
  - destruct (IH (num * 10 + (fmt.byte_val c - 48))%Z true) as [[-> _] | H].
    + exists c, s, "". repeat split; exact Hc.
    + destruct H as (c' & t & D & E & _ & E'). exists c, s, (String c' D).
      repeat split; [exact Hc|]. rewrite E at 1. cbn. now rewrite <- E'.
Qed.

Lemma parsenum_spec s :
  (snd (fmt.parsenum s) = s /\ snd (fst (fmt.parsenum s)) = false)
  \/ moved s (snd (fmt.parsenum s)).
Proof. apply parsenum_from_spec. Qed.

Lemma width_spec s a g :
  let '(w, s', _, g') := fmt.width s a g in
  (w = "" \/ w = fmt.badWidthString)
  /\ ((s' = s /\ w = "" /\ g' = g) \/ moved s s').
Proof.
  unfold fmt.width. destruct (fmt.after "*" s) as [t|] eqn:Ha.
  - apply after_Some in Ha. subst s. split; [right; reflexivity|].
    right. exists "*"%char, t, "". repeat split. discriminate.
  - pose proof (parsenum_spec s) as H.
    destruct (fmt.parsenum s) as [[n widPresent] s']. cbn in H.
    split; [left; reflexivity|].
    destruct H as [[-> ->] | H]; [left | right; exact H].
    rewrite andb_false_r. repeat split.
Qed.

Lemma precision_spec s a g :
  let '(w, s', _, g') := fmt.precision s a g in
  (w = "" \/ w = fmt.badPrecString)
  /\ ((s' = s /\ w = "" /\ g' = g) \/ moved s s').
Proof.
  unfold fmt.precision. destruct (fmt.after "." s) as [[|c0 t0]|] eqn:Ha.
  - split; [left; reflexivity|]. left. repeat split.
  - apply after_Some in Ha. subst s. set (t := String c0 t0).
    set (g0 := if a then false else g).
    assert (Hdot : forall s', (exists D, t = D ++ s') -> moved (String "." t) s').
    { intros s' [D HD]. exists "."%char, t, D. repeat split; [discriminate | exact HD]. }
    assert (Harg : exists D, t = D ++ fst (fst (fmt.argNumber t g0))).
    { destruct (argNumber_spec t g0) as [-> | H]; [exists ""; reflexivity|].
      destruct (moved_consumed _ _ H) as (c & D & E & _). now exists (String c D). }
    destruct (fmt.argNumber t g0) as [[t1 a1] g1]. cbn in Harg. destruct Harg as [D1 HD1].
    destruct (fmt.after "*" t1) as [t2|] eqn:Hs.
    + apply after_Some in Hs. subst t1. split; [right; reflexivity|].
      right. apply Hdot. exists (D1 ++ "*"). rewrite string_app_assoc. exact HD1.
    + pose proof (parsenum_spec t1) as H.
      destruct (fmt.parsenum t1) as [[n prec] t2]. cbn in H.
      split; [left; reflexivity|]. right. apply Hdot.
      destruct H as [[-> _] | H]; [exists D1; exact HD1|].
      destruct (moved_consumed _ _ H) as (c & D & E & _).
      exists (D1 ++ String c D). rewrite string_app_assoc, <- E. exact HD1.
  - split; [left; reflexivity|]. left. repeat split.
Qed.

Lemma last_argNumber_spec s a g :
  let '(s', _, g') :=
    if negb a then fmt.argNumber s g else (s, a, g) in
  (s' = s /\ g' = g) \/ moved s s'.
Proof.
  destruct a; cbn [negb]; [left; split; reflexivity|].
  destruct (argNumber_spec s g) as [-> | H]; [left; split; reflexivity|].
  destruct (fmt.argNumber s g) as [[s' a'] g']. right. exact H.
Qed.

(** The part of a directive before its verb: what it wrote, what it left,
    and that it either took nothing and changed nothing, or took bytes
    that do not start with ['!']. *)
Lemma directive_before_verb s :
  exists w1 w2 s6 g,
    fmt.directive s = (w1 ++ w2 ++ fst (fmt.verb s6 g), snd (fmt.verb s6 g))
    /\ (w1 = "" \/ w1 = fmt.badWidthString)
    /\ (w2 = "" \/ w2 = fmt.badPrecString)
    /\ ((s6 = s /\ w1 = "" /\ w2 = "" /\ g = true) \/ moved s s6).
Proof.
  unfold fmt.directive.
  pose proof (skip_flags_moved s) as H1. set (s1 := fmt.skip_flags s) in *.
  pose proof (argNumber_spec s1 true) as H2.
  destruct (fmt.argNumber s1 true) as [[s2 a2] g2]. cbn in H2.
  pose proof (width_spec s2 a2 g2) as H3.
  destruct (fmt.width s2 a2 g2) as [[[w1 s3] a3] g3]. destruct H3 as [Hw1 H3].
  pose proof (precision_spec s3 a3 g3) as H4.
  destruct (fmt.precision s3 a3 g3) as [[[w2 s4] a4] g4]. destruct H4 as [Hw2 H4].
  pose proof (last_argNumber_spec s4 a4 g4) as H5.
  destruct (if negb a4 then fmt.argNumber s4 g4 else (s4, a4, g4)) as [[s6 a6] g6].
  exists w1, w2, s6, g6.
  destruct (fmt.verb s6 g6) as [t rest]. cbn [fst snd].
  split; [reflexivity|]. split; [exact Hw1|]. split; [exact Hw2|].
  assert (I2 : (s2 = s /\ g2 = true) \/ moved s s2).
  { destruct H2 as [E | H2]; [injection E as -> _ ->|].
    - destruct H1 as [-> | H1]; [left; split; reflexivity | right; exact H1].
    - right. destruct H1 as [E | H1]; [rewrite <- E; exact H2 | exact (moved_trans _ _ _ H1 H2)]. }
  assert (I3 : (s3 = s /\ w1 = "" /\ g3 = true) \/ moved s s3).
  { destruct H3 as [(-> & -> & ->) | H3].
    - destruct I2 as [[-> ->] | I2]; [left; repeat split | right; exact I2].
    - right. destruct I2 as [[E _] | I2]; [rewrite <- E; exact H3 | exact (moved_trans _ _ _ I2 H3)]. }
  assert (I4 : (s4 = s /\ w1 = "" /\ w2 = "" /\ g4 = true) \/ moved s s4).
  { destruct H4 as [(-> & -> & ->) | H4].
    - destruct I3 as [(-> & -> & ->) | I3]; [left; repeat split | right; exact I3].
    - right. destruct I3 as [[E _] | I3]; [rewrite <- E; exact H4 | exact (moved_trans _ _ _ I3 H4)]. }
  destruct H5 as [[-> ->] | H5]; [exact I4|].
  right. destruct I4 as [[E _] | I4]; [rewrite <- E; exact H5 | exact (moved_trans _ _ _ I4 H5)].
Qed.

(** *** The verb *)

Lemma byte_val_percent c : (128 <= fmt.byte_val c)%Z -> Ascii.eqb c "%" = false.
Proof.
  intros H. destruct (Ascii.eqb_spec c "%") as [-> | _]; [|reflexivity].
  cbv in H. now elim H.
Qed.

Lemma between_high lo hi c :
  (128 <= lo)%Z -> fmt.between lo hi c = true -> Ascii.eqb c "%" = false.
Proof.
  unfold fmt.between. intros Hlo H. apply andb_true_iff in H as [H _].
  apply Z.leb_le in H. apply byte_val_percent. lia.
Qed.

Lemma utf8_first_lo c sz lo hi : fmt.utf8_first c = Some (sz, lo, hi) -> (128 <= lo)%Z.
Proof.
  unfold fmt.utf8_first.
  repeat match goal with
         | |- context [if ?b then _ else _] => destruct b
         end; intros [= <- <- <-] || discriminate; lia.
Qed.

(** A verb of one byte below 128 is that byte; any other verb is printed
    without a ['%']; the bytes of the verb are taken from the format. *)
Lemma decode_verb_spec c s :
  let '(v, rest) := fmt.decode_verb c s in
  (exists V, s = V ++ rest)
  /\ ((fmt.byte_val c < 128)%Z -> v = String c "" /\ rest = s)
  /\ ((128 <= fmt.byte_val c)%Z -> no_percent v = true).
Proof.
  unfold fmt.decode_verb.
  destruct (fmt.byte_val c <? 128)%Z eqn:Hc.
  - apply Z.ltb_lt in Hc. split; [exists ""; reflexivity|]. split; [auto | lia].
  - apply Z.ltb_ge in Hc.
    assert (Herr : (exists V, s = V ++ s)
                   /\ ((fmt.byte_val c < 128)%Z -> fmt.runeError = String c "" /\ s = s)
                   /\ ((128 <= fmt.byte_val c)%Z -> no_percent fmt.runeError = true)).
    { split; [exists ""; reflexivity|]. split; [lia | reflexivity]. }
    pose proof (byte_val_percent c Hc) as Hp.
    destruct (fmt.utf8_first c) as [[[sz lo] hi]|] eqn:Hf; [|exact Herr].
    apply utf8_first_lo in Hf.
    destruct s as [|c1 s1]; [exact Herr|].
    destruct (fmt.between lo hi c1) eqn:H1; cbn [negb]; [|exact Herr].
    apply (between_high _ _ _ Hf) in H1.
    destruct (sz <=? 2)%nat.
    { split; [exists (String c1 ""); reflexivity|]. split; [lia|].
      intros _. cbn. now rewrite Hp, H1. }
    destruct s1 as [|c2 s2]; [exact Herr|].
    destruct (fmt.between 128 191 c2) eqn:H2; cbn [negb]; [|exact Herr].
    apply (between_high 128 191 c2 ltac:(lia)) in H2.
    destruct (sz <=? 3)%nat.
    { split; [exists (String c1 (String c2 "")); reflexivity|]. split; [lia|].
      intros _. cbn. now rewrite Hp, H1, H2. }
    destruct s2 as [|c3 s3]; [exact Herr|].
    destruct (fmt.between 128 191 c3) eqn:H3; cbn [negb]; [|exact Herr].
    apply (between_high 128 191 c3 ltac:(lia)) in H3.
    split; [exists (String c1 (String c2 (String c3 ""))); reflexivity|]. split; [lia|].
    intros _. cbn. now rewrite Hp, H1, H2, H3.
Qed.

Lemma no_percent_not_percent v : no_percent v = true -> String.eqb v "%" = false.
Proof.
  destruct v as [|c v]; [reflexivity|]. cbn.
  destruct (Ascii.eqb c "%"); [discriminate | reflexivity].
Qed.

(** *** Where a ['%'] stands in what is written *)

Lemma percent_bang_weaken s : percent_bang s = true -> percent_bang_or_end s = true.
Proof.
  induction s as [|c s IH]; [reflexivity|]. cbn.
  destruct (Ascii.eqb c "%"); [|exact IH].
  destruct s as [|c' s']; [discriminate|]. cbv beta iota.
  intros H. apply andb_true_iff in H as [E H]. rewrite E. cbn [andb]. apply IH, H.
Qed.

Lemma no_percent_bang s : no_percent s = true -> percent_bang s = true.
Proof.
  induction s as [|c s IH]; [reflexivity|]. cbn.
  destruct (Ascii.eqb c "%"); [discriminate | exact IH].
Qed.

Lemma percent_bang_app a b :
  percent_bang a = true -> percent_bang b = true -> percent_bang (a ++ b) = true.
Proof.
  intros Ha Hb. induction a as [|c a IH]; [exact Hb|].
  cbn in Ha |- *. destruct (Ascii.eqb c "%").
  - destruct a as [|c' a']; [discriminate|]. cbv beta iota in Ha.
    apply andb_true_iff in Ha as [E Ha]. cbn [append]. rewrite E. cbn [andb]. apply IH, Ha.
  - apply IH, Ha.
Qed.

Lemma percent_bang_app_end a b :
  percent_bang a = true -> percent_bang_or_end b = true ->
  percent_bang_or_end (a ++ b) = true.
Proof.
  intros Ha Hb. induction a as [|c a IH]; [exact Hb|].
  cbn in Ha |- *. destruct (Ascii.eqb c "%").
  - destruct a as [|c' a']; [discriminate|]. cbv beta iota in Ha.
    apply andb_true_iff in Ha as [E Ha]. cbn [append]. rewrite E. cbn [andb]. apply IH, Ha.
  - apply IH, Ha.
Qed.




Lemma string_app_self_nil (V s : string) : s = V ++ s -> V = "".
Proof.
  intros H. apply (f_equal String.length) in H. rewrite string_app_length in H.
  destruct V; [reflexivity | cbn in H; lia].
Qed.

Lemma percent_bang_width w : w = "" \/ w = fmt.badWidthString -> percent_bang w = true.
Proof. intros [-> | ->]; reflexivity. Qed.

Lemma percent_bang_prec w : w = "" \/ w = fmt.badPrecString -> percent_bang w = true.
Proof. intros [-> | ->]; reflexivity. Qed.

(** What the verb writes holds one ['%'], at its head; ['!'] follows it
    unless the verb is ['%'] itself. *)
Lemma verb_spec s g :
  let '(t, rest) := fmt.verb s g in
  percent_bang_or_end t = true
  /\ ((s = "" /\ t = fmt.noVerbString /\ rest = "")
      \/ exists c V, s = String c V ++ rest
                     /\ (c = "!"%char -> V = "" /\ (g = true -> t = "%!!(MISSING)"))).
Proof.
  unfold fmt.verb. destruct s as [|c s']; [split; [reflexivity | left; repeat split]|].
  pose proof (decode_verb_spec c s') as H.
  destruct (fmt.decode_verb c s') as [v rest]. destruct H as ([V HV] & Hlow & Hhigh).
  assert (Hc : exists c0 V0, String c s' = String c0 V0 ++ rest
                 /\ (c0 = "!"%char -> V0 = "" /\ v = "!")).
  { exists c, V. split; [cbn; now rewrite <- HV|].
    intros ->. destruct (Hlow ltac:(reflexivity)) as [-> ->].
    split; [exact (string_app_self_nil _ _ HV) | reflexivity]. }
  destruct (String.eqb v "%") eqn:Ev.
  { split; [reflexivity|]. right. destruct Hc as (c0 & V0 & E & Hbang).
    exists c0, V0. split; [exact E|]. intros Hc0. destruct (Hbang Hc0) as [-> ->].
    discriminate Ev. }
  assert (Hv : no_percent v = true).
  { destruct (Z.lt_ge_cases (fmt.byte_val c) 128) as [Hl | Hh]; [|exact (Hhigh Hh)].
    destruct (Hlow Hl) as [-> _]. cbn in Ev |- *.
    destruct (Ascii.eqb c "%"); [discriminate Ev | reflexivity]. }
  assert (Hout : forall suffix, percent_bang suffix = true ->
                   percent_bang_or_end (fmt.percentBangString ++ v ++ suffix) = true).
  { intros suffix Hs. apply percent_bang_weaken.
    apply percent_bang_app; [reflexivity|].
    apply percent_bang_app; [apply no_percent_bang, Hv | exact Hs]. }
  destruct Hc as (c0 & V0 & E & Hbang).
  destruct g; cbn [negb].
  - split; [apply Hout; reflexivity|]. right. exists c0, V0. split; [exact E|].
    intros Hc0. destruct (Hbang Hc0) as [-> ->]. split; reflexivity.
  - split; [apply Hout; reflexivity|]. right. exists c0, V0. split; [exact E|].
    intros Hc0. destruct (Hbang Hc0) as [-> ->]. split; [reflexivity | discriminate].
Qed.

(** A directive, as the proof of the next theorem needs it: the bytes [D]
    it took; in what it wrote every ['%'] is followed by ['!'] or stands at
    the end; if it took nothing, the format was over and it wrote
    [noVerbString]; if the first byte it took is ['!'], that byte was the
    verb. *)
Lemma directive_spec s :
  let '(out, rest) := fmt.directive s in
  exists D,
    s = D ++ rest
    /\ percent_bang_or_end out = true
    /\ (D = "" -> out = fmt.noVerbString /\ rest = "")
    /\ (forall D', D = String "!" D' -> D' = "" /\ out = "%!!(MISSING)").
Proof.
  destruct (directive_before_verb s) as (w1 & w2 & s6 & g & -> & Hw1 & Hw2 & Hinv).
  pose proof (verb_spec s6 g) as Hverb.
  destruct (fmt.verb s6 g) as [t rest]. cbn [fst snd]. destruct Hverb as [Ht Hverb].
  assert (HO : percent_bang_or_end (w1 ++ w2 ++ t) = true).
  { apply percent_bang_app_end; [apply percent_bang_width, Hw1|].
    apply percent_bang_app_end; [apply percent_bang_prec, Hw2 | exact Ht]. }
  destruct Hinv as [(-> & -> & -> & ->) | Hmoved].
  - destruct Hverb as [(-> & -> & ->) | (c & V & -> & Hbang)].
    + exists "". split; [reflexivity|]. split; [exact HO|].
      split; [intros _; split; reflexivity|]. intros D' H. discriminate H.
    + exists (String c V). split; [reflexivity|]. split; [exact HO|].
      split; [discriminate|]. intros D' [= -> ->].
      destruct (Hbang eq_refl) as [-> Hm]. split; [reflexivity | exact (Hm eq_refl)].
  - destruct (moved_consumed _ _ Hmoved) as (c0 & D0 & -> & Hc0).
    destruct Hverb as [(-> & -> & ->) | (c & V & -> & _)].
    + exists (String c0 D0). split; [reflexivity|]. split; [exact HO|].
      split; [discriminate|]. intros D' [= -> _]. now elim Hc0.
    + exists (String c0 D0 ++ String c V). split; [now rewrite string_app_assoc|].
      split; [exact HO|]. split; [discriminate|]. intros D' [= -> _]. now elim Hc0.
Qed.

Lemma directive_length s :
  String.length (snd (fmt.directive s)) <= String.length s.
Proof.
  pose proof (directive_spec s) as H. destruct (fmt.directive s) as [out rest].
  destruct H as (D & -> & _). cbn. rewrite string_app_length. lia.
Qed.

(** *** The loop *)

Lemma doPrintf_fuel : forall fuel fuel' format,
  String.length format <= fuel -> String.length format <= fuel' ->
  fmt.doPrintf fuel format = fmt.doPrintf fuel' format.
Proof.
  induction fuel as [|fuel IH]; intros fuel' format H H'.
  - destruct format; [|cbn in H; lia]. destruct fuel'; reflexivity.
  - destruct format as [|c rest]; [destruct fuel'; reflexivity|].
    destruct fuel' as [|fuel']; [cbn in H'; lia|]. cbn in H, H' |- *.
    destruct (Ascii.eqb c "%").
    + pose proof (directive_length rest) as Hl.
      destruct (fmt.directive rest) as [out rest']. cbn in Hl.
      f_equal. apply IH; lia.
    + f_equal. apply IH; lia.
Qed.

Lemma Sprintf_nil : fmt.Sprintf "" = "".
Proof. reflexivity. Qed.

Lemma Sprintf_byte c format :
  Ascii.eqb c "%" = false ->
  fmt.Sprintf (String c format) = String c (fmt.Sprintf format).
Proof. intros H. unfold fmt.Sprintf. cbn. now rewrite H. Qed.

Lemma Sprintf_percent format :
  fmt.Sprintf (String "%" format)
  = fst (fmt.directive format) ++ fmt.Sprintf (snd (fmt.directive format)).
Proof.
  unfold fmt.Sprintf. cbn.
  pose proof (directive_length format) as Hl.
  destruct (fmt.directive format) as [out rest]. cbn [fst snd] in *.
  f_equal. apply doPrintf_fuel; lia.
Qed.

Lemma Sprintf_no_percent_app a format :
  no_percent a = true -> fmt.Sprintf (a ++ format) = a ++ fmt.Sprintf format.
Proof.
  induction a as [|c a IH]; [reflexivity|]. cbn [append no_percent]. intros H.
  apply andb_true_iff in H as [Hc Ha]. apply negb_true_iff in Hc.
  rewrite Sprintf_byte by exact Hc. now rewrite IH.
Qed.







(** ** Effective keys *)

Lemma namespaced_omitted Separator key :
  namespaced Separator key nil_slice = key.
Proof. reflexivity. Qed.

Lemma namespaced_segments Separator key seg segs :
  namespaced Separator key (make_slice (seg :: segs))
  = String.concat Separator (seg :: segs) ++ ":" ++ key.
Proof. reflexivity. Qed.

(** With the default separator the effective key is the one the
    specification words. *)
Lemma namespaced_default key segs :
  namespaced DefaultSeparator key (make_slice segs) = spec_key DefaultSeparator key segs.
Proof. destruct segs; reflexivity. Qed.

(** C1, at the input where the code departs from it.  With the separator
    set to "/", [Get("k", "a", "b")] sends GET for the key "a/b:k": the
    segments are joined with the separator, but the base key is attached
    with the ":" of the format string.  The key of the specification is
    "a/b/k". *)
Theorem C1_base_key_attached_with_colon :
  let w0 := Build_World [(IBytes "v", None)] [] in
  issued (snd (Get "/" (NewCacheFromPool _ (Some scripted)) "k" (make_slice ["a"; "b"]) w0))
  = [("GET", [IString "a/b:k"])]
  /\ spec_key "/" "k" ["a"; "b"] = "a/b/k"
  /\ namespaced "/" "k" (make_slice ["a"; "b"]) <> spec_key "/" "k" ["a"; "b"].
Proof. cbn. repeat split. discriminate. Qed.

(** ** Clients that were not initialized *)

Lemma not_initialized_usable {St} (c : option (Cache St)) :
  not_initialized c -> usable c = None.
Proof.
  intros [-> | (c' & -> & Hpool)]; [reflexivity | exact Hpool].
Qed.

Section Uninitialized.

Context {redigo : Redigo} {St : Type}.
Variables (Separator : string) (intSize : Z).

(** C2: on a nil client or a client with a nil pool every operation
    returns [NotInitializedError] with the zero value of its result, and
    leaves the store and the list of issued commands as they were. *)
Theorem C2_not_initialized (c : option (Cache St)) (H : not_initialized c)
  (fuel : nat) (key pattern : string) (value : iface) (duration : Z)
  (namespace : slice string) (w : World St) :
  Ping c w = (Some NotInitializedError, w)
  /\ Get Separator c key namespace w = ((INil, Some NotInitializedError), w)
  /\ GetBool Separator c key namespace w = ((false, Some NotInitializedError), w)
  /\ GetBytes Separator c key namespace w = ((nil_slice, Some NotInitializedError), w)
  /\ GetInt Separator c key namespace w = ((0%Z, Some NotInitializedError), w)
  /\ GetString Separator c key namespace w = (("", Some NotInitializedError), w)
  /\ Set_ Separator c key value namespace w = (Some NotInitializedError, w)
  /\ SetEx Separator intSize c key value duration namespace w = (Some NotInitializedError, w)
  /\ Exists Separator c key namespace w = ((false, Some NotInitializedError), w)
  /\ Delete Separator c key namespace w = (Some NotInitializedError, w)
  /\ Clear Separator fuel c pattern namespace w = (Returns (Some NotInitializedError), w)
  /\ ClearAll Separator fuel c namespace w = (Returns (Some NotInitializedError), w)
  /\ GetKeys Separator fuel c pattern namespace w = (Returns ([], Some NotInitializedError), w)
  /\ GetAllKeys Separator fuel c namespace w = (Returns ([], Some NotInitializedError), w).
Proof.
  apply not_initialized_usable in H.
  unfold Ping, GetBool, GetBytes, GetInt, GetString, Get, Set_, SetEx, Exists, Delete,
    ClearAll, Clear, GetAllKeys, GetKeys, bind, ret.
  rewrite H.
  rewrite redis_Bool_err, redis_Bytes_err, redis_Int_err, redis_String_err.
  repeat split.
Qed.

(** C7: [GetAllKeys] is [GetKeys] with the pattern "*" and [ClearAll] is
    [Clear] with the pattern "*": same result, same commands, same store
    afterwards, for every client, namespace and bound on the iterations. *)
Theorem C7_all_is_star (fuel : nat) (c : option (Cache St)) (namespace : slice string)
  (w : World St) :
  GetAllKeys Separator fuel c namespace w = GetKeys Separator fuel c "*" namespace w
  /\ ClearAll Separator fuel c namespace w = Clear Separator fuel c "*" namespace w.
Proof. split; reflexivity. Qed.

(** C8: a call that spreads an empty list of segments and a call that
    omits the namespace run alike: same effective key, and from the same
    world the same result, commands and store. *)
Theorem C8_empty_namespace_is_omitted (fuel : nat) (c : option (Cache St))
  (key pattern : string) (value : iface) (duration : Z) (w : World St) :
  namespaced Separator key (make_slice []) = namespaced Separator key nil_slice
  /\ Get Separator c key (make_slice []) w = Get Separator c key nil_slice w
  /\ GetBool Separator c key (make_slice []) w = GetBool Separator c key nil_slice w
  /\ GetBytes Separator c key (make_slice []) w = GetBytes Separator c key nil_slice w
  /\ GetInt Separator c key (make_slice []) w = GetInt Separator c key nil_slice w
  /\ GetString Separator c key (make_slice []) w = GetString Separator c key nil_slice w
  /\ Set_ Separator c key value (make_slice []) w = Set_ Separator c key value nil_slice w
  /\ SetEx Separator intSize c key value duration (make_slice []) w
     = SetEx Separator intSize c key value duration nil_slice w
  /\ Exists Separator c key (make_slice []) w = Exists Separator c key nil_slice w
  /\ Delete Separator c key (make_slice []) w = Delete Separator c key nil_slice w
  /\ Clear Separator fuel c pattern (make_slice []) w = Clear Separator fuel c pattern nil_slice w
  /\ ClearAll Separator fuel c (make_slice []) w = ClearAll Separator fuel c nil_slice w
  /\ GetKeys Separator fuel c pattern (make_slice []) w
     = GetKeys Separator fuel c pattern nil_slice w
  /\ GetAllKeys Separator fuel c (make_slice []) w = GetAllKeys Separator fuel c nil_slice w.
Proof. repeat split. Qed.

End Uninitialized.

Lemma C2_not_initialized_witness :
  not_initialized (NewCacheFromPool (list (iface * option error)) None)
  /\ Get ":" (NewCacheFromPool (list (iface * option error)) None) "k" (make_slice ["n"])
       (Build_World [(IBytes "v", None)] [])
     = ((INil, Some NotInitializedError), Build_World [(IBytes "v", None)] []).
Proof.
  assert (H : not_initialized (NewCacheFromPool (list (iface * option error)) None)).
  { right. eexists. split; reflexivity. }
  split; [exact H|].
  exact (proj1 (proj2 (C2_not_initialized (redigo := table_redigo) ":" 64 _ H 1 "k" "*" INil 0
                         (make_slice ["n"]) (Build_World [(IBytes "v", None)] [])))).
Defined.

(** ** The time to live of SETEX *)

Lemma int_of_int64_id (x : Z) : int64_range x -> int_of_int64 64 x = x.
Proof.
  unfold int64_range, int_of_int64. intros H.
  change (64 - 1)%Z with 63%Z.
  replace (2 ^ 64)%Z with (2 * 2 ^ 63)%Z by reflexivity.
  rewrite Z.mod_small; lia.
Qed.

Lemma quot_second_range (d : Z) : int64_range d -> int64_range (Z.quot d time_Second).
Proof.
  unfold int64_range, time_Second. intros H.
  destruct (Z.le_gt_cases 0 d) as [Hd | Hd].
  - rewrite Z.quot_div_nonneg by lia.
    pose proof (Z.div_pos d 1000000000 Hd eq_refl).
    pose proof (Z.div_le_upper_bound d 1000000000 d eq_refl). lia.
  - replace d with (- (- d))%Z by lia.
    rewrite Z.quot_opp_l by lia.
    rewrite Z.quot_div_nonneg by lia.
    assert (0 <= - d)%Z as Hn by lia.
    pose proof (Z.div_pos (- d) 1000000000 Hn eq_refl).
    pose proof (Z.div_le_upper_bound (- d) 1000000000 (- d) eq_refl). lia.
Qed.

Lemma quot_below_second (d : Z) :
  (- time_Second < d < time_Second)%Z -> Z.quot d time_Second = 0%Z.
Proof. unfold time_Second. intros H. apply Z.quot_small_iff; lia. Qed.

Lemma SetEx_seconds_64 (d : Z) :
  int64_range d -> SetEx_seconds 64 d = Z.quot d time_Second.
Proof.
  intros H. unfold SetEx_seconds. apply int_of_int64_id, quot_second_range, H.
Qed.

(** C5 as stated fails on a negative duration: -1s is strictly below one
    second and SETEX receives -1, not 0. *)
Lemma C5_negative_ttl_counterexample :
  issued (snd (SetEx ":" 64 (NewCacheFromPool _ (Some scripted)) "k" (IString "v")
                 (-1000000000) nil_slice (Build_World [(IString "OK", None)] [])))
  = [("SETEX", [IString "k"; IInt (-1); IString "v"])]
  /\ ~ (forall d : Z, int64_range d -> (d < time_Second)%Z -> SetEx_seconds 64 d = 0%Z).
Proof.
  split; [reflexivity|].
  intros H. specialize (H (-1000000000)%Z).
  assert (SetEx_seconds 64 (-1000000000) = 0%Z) as E.
  { apply H; [unfold int64_range; lia | reflexivity]. }
  discriminate E.
Qed.

(** C5, amended: SETEX receives the whole seconds of the duration,
    truncated toward zero ([int] being 64 bits wide); for a duration
    strictly between -1s and 1s it receives 0, whichever the width of
    [int]. *)
Theorem C5_ttl_truncated_toward_zero {St : Type} (Separator : string)
  (c : option (Cache St)) (r : Pool St) (Hc : usable c = Some r)
  (key : string) (value : iface) (d : Z) (Hd : int64_range d)
  (namespace : slice string) (w : World St) :
  issued (snd (SetEx Separator 64 c key value d namespace w))
  = (issued w ++ [("SETEX", [IString (namespaced Separator key namespace);
                             IInt (Z.quot d time_Second); value])])%list
  /\ (Z.abs (Z.quot d time_Second) * time_Second <= Z.abs d
      < (Z.abs (Z.quot d time_Second) + 1) * time_Second)%Z
  /\ (0 <= Z.quot d time_Second * d)%Z
  /\ ((- time_Second < d < time_Second)%Z ->
      forall intSize, intSize = 32%Z \/ intSize = 64%Z -> SetEx_seconds intSize d = 0%Z).
Proof.
  split; [|split; [|split]].
  - unfold SetEx, bind, ret, conn_Do. rewrite Hc.
    rewrite (SetEx_seconds_64 d Hd).
    destruct (Do r (store w) _ _) as [[reply err] s']. destruct err; reflexivity.
  - unfold time_Second.
    pose proof (Z.quot_abs d 1000000000 ltac:(lia)) as Ha.
    rewrite <- Ha. rewrite (Z.abs_eq 1000000000) by lia.
    rewrite Z.quot_div_nonneg by lia.
    pose proof (Z.div_mod (Z.abs d) 1000000000 ltac:(lia)).
    pose proof (Z.mod_pos_bound (Z.abs d) 1000000000 eq_refl). lia.
  - destruct (Z.le_gt_cases 0 d) as [H0 | H0].
    + pose proof (Z.quot_pos d time_Second H0 eq_refl). nia.
    + replace d with (- (- d))%Z at 1 by lia. rewrite Z.quot_opp_l by (unfold time_Second; lia).
      assert (0 <= - d)%Z as Hn by lia.
      pose proof (Z.quot_pos (- d) time_Second Hn eq_refl). nia.
  - intros Hs intSize Hsize. unfold SetEx_seconds.
    rewrite (quot_below_second d Hs). destruct Hsize as [-> | ->]; reflexivity.
Qed.

Lemma C5_ttl_truncated_toward_zero_witness :
  issued (snd (SetEx ":" 64 (NewCacheFromPool _ (Some scripted)) "k" (IString "v")
                 1999999999 nil_slice (Build_World [(IString "OK", None)] [])))
  = [("SETEX", [IString "k"; IInt 1; IString "v"])].
Proof.
  assert (Hd : int64_range 1999999999) by (unfold int64_range; lia).
  exact (proj1 (C5_ttl_truncated_toward_zero ":" (NewCacheFromPool _ (Some scripted)) scripted
                  eq_refl "k" (IString "v") 1999999999 Hd nil_slice
                  (Build_World [(IString "OK", None)] []))).
Defined.

(** ** The loops, one iteration at a time *)

Section Loops.

Context {redigo : Redigo} {St : Type}.
Variable r : Pool St.
Variable ns : string.

Lemma GetKeys_loop_step fuel cursor items keys (w : World St) :
  GetKeys_loop (S fuel) r ns cursor items keys w =
  let w1 := Build_World (snd (scan_items r ns (store w) cursor items))
                        (issued w ++ [scan_command cursor ns]) in
  match fst (scan_items r ns (store w) cursor items) with
  | inl e => (Returns ([], Some (GetKeys_msg e)), w1)
  | inr (cursor', items') =>
      if (cursor' =? 0)%Z then (Returns ((keys ++ items')%list, None), w1)
      else GetKeys_loop fuel r ns cursor' items' (keys ++ items') w1
  end.
Proof.
  cbn [GetKeys_loop]. unfold bind, conn_Do, ret, scan_items.
  destruct (Do r (store w) _ _) as [[reply err0] s'].
  destruct (redis_Values reply err0) as [values [e|]]; [reflexivity|].
  destruct (redis_Scan_items values cursor items) as [[cursor' items'] [e|]]; [reflexivity|].
  cbn. destruct (cursor' =? 0)%Z; reflexivity.
Qed.

Lemma Clear_loop_step fuel cursor keys (w : World St) :
  Clear_loop (S fuel) r ns cursor keys w =
  let w1 := Build_World (snd (scan_keys r ns (store w) cursor keys))
                        (issued w ++ [scan_command cursor ns]) in
  match fst (scan_keys r ns (store w) cursor keys) with
  | inl e => (Returns (Some (Clear_msg e)), w1)
  | inr (cursor', keys') =>
      match keys' with
      | [] =>
          if (cursor' =? 0)%Z then (Returns None, w1)
          else Clear_loop fuel r ns cursor' keys' w1
      | _ :: _ =>
          let '(_, err, s') := Do r (store w1) "UNLINK" keys' in
          let w2 := Build_World s' (issued w1 ++ [("UNLINK", keys')]) in
          match err with
          | Some e => (Returns (Some (Clear_msg e)), w2)
          | None =>
              if (cursor' =? 0)%Z then (Returns None, w2)
              else Clear_loop fuel r ns cursor' keys' w2
          end
      end
  end.
Proof.
  cbn [Clear_loop]. unfold bind, conn_Do, ret, scan_keys.
  destruct (Do r (store w) _ _) as [[reply err0] s'].
  destruct (redis_Values reply err0) as [values [e|]]; [reflexivity|].
  destruct (redis_Scan_keys values cursor keys) as [[cursor' keys'] [e|]]; [reflexivity|].
  destruct keys' as [|k keys']; cbn.
  - destruct (cursor' =? 0)%Z; reflexivity.
  - destruct (Do r s' "UNLINK" (k :: keys')) as [[reply' [e|]] s'']; [reflexivity|].
    destruct (cursor' =? 0)%Z; reflexivity.
Qed.

(** [GetKeys] on a session: with a bound above the number of pages the
    loop returns, having asked one SCAN per page at the cursor of the page
    before; the keys are the pages in order, behind the keys it held. *)
Lemma GetKeys_loop_session st cursor items pages oe st' :
  GetKeys_session r ns st cursor items pages oe st' ->
  forall fuel keys log,
    List.length pages < fuel ->
    GetKeys_loop fuel r ns cursor items keys (Build_World st log) =
    (Returns (match oe with
              | None => ((keys ++ List.concat (map snd pages))%list, None)
              | Some e => ([], Some (GetKeys_msg e))
              end),
     Build_World st'
       (log ++ scan_commands ns cursor (map fst pages)
                 (match oe with Some _ => true | None => false end))).
Proof.
  induction 1 as [st cursor items e st' Hs
                 | st cursor items page st' Hs
                 | st cursor items cursor' page st1 pages oe st' Hs Hc Hrest IH];
    intros fuel keys log Hfuel;
    (destruct fuel as [|fuel]; [cbn in Hfuel; lia|]);
    rewrite GetKeys_loop_step; cbn [store issued]; rewrite Hs; cbn [fst snd].
  - reflexivity.
  - cbn. rewrite app_nil_r. reflexivity.
  - apply Z.eqb_neq in Hc. rewrite Hc.
    rewrite IH by (cbn in Hfuel; lia).
    cbn [map List.concat fst snd scan_commands]. rewrite <- !app_assoc. reflexivity.
Qed.

(** [Clear] on a session: the commands are those of [clear_commands] and
    the result is that of the ending. *)
Lemma Clear_loop_session st cursor keys pages en st' :
  Clear_session r ns st cursor keys pages en st' ->
  forall fuel log,
    List.length pages < fuel ->
    Clear_loop fuel r ns cursor keys (Build_World st log) =
    (Returns (clear_result en),
     Build_World st' (log ++ clear_commands ns cursor pages en)).
Proof.
  induction 1 as [st cursor keys e st' Hs
                 | st cursor keys cursor' page st1 reply e st' Hs Hne Hu
                 | st cursor keys page st1 st' Hs Hu
                 | st cursor keys cursor' page st1 st2 pages en st' Hs Hc Hu Hrest IH];
    intros fuel log Hfuel;
    (destruct fuel as [|fuel]; [cbn in Hfuel; lia|]);
    rewrite Clear_loop_step; cbn [store issued]; rewrite Hs; cbn [fst snd].
  - reflexivity.
  - destruct page as [|k page]; [contradiction|].
    cbn [store issued]. rewrite Hu. cbn. rewrite <- app_assoc. reflexivity.
  - destruct page as [|k page]; cbn in Hu.
    + subst st'. cbn. reflexivity.
    + destruct Hu as [reply Hu]. cbn [store issued]. rewrite Hu. cbn.
      rewrite <- app_assoc. reflexivity.
  - apply Z.eqb_neq in Hc. rewrite Hc.
    destruct page as [|k page]; cbn in Hu.
    + subst st2. rewrite IH by (cbn in Hfuel; lia).
      cbn. rewrite <- app_assoc. reflexivity.
    + destruct Hu as [reply Hu]. cbn [store issued]. rewrite Hu.
      rewrite IH by (cbn in Hfuel; lia).
      cbn. rewrite <- !app_assoc. reflexivity.
Qed.

(** Every run of the loops that returns went through a session. *)
Lemma GetKeys_loop_returns fuel : forall cursor items keys (w w' : World St) res,
  GetKeys_loop fuel r ns cursor items keys w = (Returns res, w') ->
  exists pages oe,
    GetKeys_session r ns (store w) cursor items pages oe (store w')
    /\ List.length pages <= fuel.
Proof.
  induction fuel as [|fuel IH]; intros cursor items keys w w' res Hrun.
  - discriminate Hrun.
  - rewrite GetKeys_loop_step in Hrun.
    destruct (scan_items r ns (store w) cursor items) as [[e | [cursor' items']] st1] eqn:Hs;
      cbn [fst snd] in Hrun.
    + injection Hrun as _ <-. exists [], (Some e). split; [|cbn; lia].
      now apply gs_fails.
    + destruct (Z.eqb_spec cursor' 0) as [-> | Hc].
      * injection Hrun as _ <-. exists [(0%Z, items')], None.
        split; [|cbn; lia]. now apply gs_last.
      * apply IH in Hrun. destruct Hrun as (pages & oe & Hsess & Hlen).
        exists ((cursor', items') :: pages), oe. split; [|cbn; lia].
        eapply gs_more; eauto.
Qed.

Lemma Clear_loop_returns fuel : forall cursor keys (w w' : World St) res,
  Clear_loop fuel r ns cursor keys w = (Returns res, w') ->
  exists pages en,
    Clear_session r ns (store w) cursor keys pages en (store w')
    /\ List.length pages <= fuel.
Proof.
  induction fuel as [|fuel IH]; intros cursor keys w w' res Hrun.
  - discriminate Hrun.
  - rewrite Clear_loop_step in Hrun.
    destruct (scan_keys r ns (store w) cursor keys) as [[e | [cursor' keys']] st1] eqn:Hs;
      cbn [fst snd] in Hrun.
    + injection Hrun as _ <-. exists [], (ScanFailed e). split; [|cbn; lia].
      now apply cs_scan_fails.
    + destruct keys' as [|k keys'].
      * destruct (Z.eqb_spec cursor' 0) as [-> | Hc].
        -- injection Hrun as _ <-. exists [(0%Z, [])], Finished.
           split; [|cbn; lia]. eapply cs_last; [eassumption | reflexivity].
        -- apply IH in Hrun. destruct Hrun as (pages & en & Hsess & Hlen).
           exists ((cursor', []) :: pages), en. split; [|cbn; lia].
           eapply cs_more; [eassumption | assumption | reflexivity | exact Hsess].
      * cbn [store issued] in Hrun.
        destruct (Do r st1 "UNLINK" (k :: keys')) as [[reply [e|]] s'] eqn:Hu.
        -- injection Hrun as _ <-. exists [(cursor', k :: keys')], (UnlinkFailed e).
           split; [|cbn; lia]. eapply cs_unlink_fails; [eassumption | discriminate | eassumption].
        -- destruct (Z.eqb_spec cursor' 0) as [-> | Hc].
           ++ injection Hrun as _ <-. exists [(0%Z, k :: keys')], Finished.
              split; [|cbn; lia]. eapply cs_last; [eassumption | exists reply; eassumption].
           ++ apply IH in Hrun. destruct Hrun as (pages & en & Hsess & Hlen).
              exists ((cursor', k :: keys') :: pages), en. split; [|cbn; lia].
              eapply cs_more; [eassumption | assumption | exists reply; eassumption | exact Hsess].
Qed.

End Loops.

(** ** GetKeys *)

(** What holds of the loop of [GetKeys] for every pattern: when the store
    answers the SCANs of a session that ends with cursor 0, [GetKeys]
    returns the keys of all pages in page order, duplicates included,
    after one SCAN per page, the first at cursor 0 and each next one at
    the cursor of the page before.  The MATCH argument of each SCAN is
    [fmt.Sprintf] of the namespaced pattern. *)
Lemma GetKeys_pages {redigo : Redigo} {St : Type} (Separator : string)
  (c : option (Cache St)) (r : Pool St) (Hc : usable c = Some r)
  (pattern : string) (namespace : slice string) (w : World St)
  (pages : list (Z * list string)) (st' : St)
  (Hs : GetKeys_session r (namespaced Separator pattern namespace) (store w) 0 [] pages None st')
  (fuel : nat) (Hfuel : List.length pages < fuel) :
  GetKeys Separator fuel c pattern namespace w
  = (Returns (List.concat (map snd pages), None),
     Build_World st'
       (issued w ++ scan_commands (namespaced Separator pattern namespace) 0
                      (map fst pages) false)).
Proof.
  unfold GetKeys. rewrite Hc. destruct w as [st log]. cbn [store issued] in *.
  rewrite (GetKeys_loop_session r _ _ _ _ _ _ _ Hs fuel [] log Hfuel). reflexivity.
Qed.

(** The two pages of this run share the key "a": it is returned twice. *)
Example GetKeys_keeps_duplicates :
  GetKeys ":" 5 (NewCacheFromPool _ (Some scripted)) "*" (make_slice ["app"])
    (Build_World [scan_reply "17" ["a"; "b"]; scan_reply "0" ["a"]] [])
  = (Returns (["a"; "b"; "a"], None),
     Build_World []
       [("SCAN", [IInt64 0; IString "MATCH"; IString "app:*"]);
        ("SCAN", [IInt64 17; IString "MATCH"; IString "app:*"])]).
Proof. reflexivity. Qed.

(** C4, at the input where the code departs from it.  [GetKeys("50%")]
    asks SCAN with the MATCH argument "50%!(NOVERB)": the namespaced
    pattern "50%" went through [fmt.Sprintf] as a format. *)
Theorem C4_match_argument_is_formatted :
  namespaced ":" "50%" nil_slice = "50%"
  /\ GetKeys ":" 5 (NewCacheFromPool _ (Some scripted)) "50%" nil_slice
       (Build_World [scan_reply "0" ["50%"]] [])
     = (Returns (["50%"], None),
        Build_World [] [("SCAN", [IInt64 0; IString "MATCH"; IString "50%!(NOVERB)"])]).
Proof. split; reflexivity. Qed.

(** ** Clear *)

Lemma filter_unlink_commands (page : list iface) :
  filter is_unlink (unlink_commands page)
  = map (fun p => ("UNLINK", p)) (filter has_keys [page]).
Proof. destruct page; reflexivity. Qed.

Lemma clear_commands_unlinks ns : forall pages cursor en,
  filter is_unlink (clear_commands ns cursor pages en)
  = map (fun p => ("UNLINK", p)) (filter has_keys (map snd pages)).
Proof.
  induction pages as [|[cursor' page] pages IH]; intros cursor en.
  - destruct en; reflexivity.
  - cbn [clear_commands map snd]. rewrite filter_app, IH.
    destruct page; reflexivity.
Qed.

Lemma clear_commands_scans ns : forall pages cursor en,
  filter is_scan (clear_commands ns cursor pages en)
  = scan_commands ns cursor (map fst pages)
      (match en with ScanFailed _ => true | _ => false end).
Proof.
  induction pages as [|[cursor' page] pages IH]; intros cursor en.
  - destruct en; reflexivity.
  - cbn [clear_commands map fst scan_commands]. rewrite filter_app, IH.
    destruct page; reflexivity.
Qed.

(** Closes a goal [Forall P [c1; ...; cn]] or [Forall P (c1 :: ... :: l)]
    from the facts at hand. *)
Ltac shape :=
  repeat first [apply Forall_nil | apply Forall_cons]; eauto.

(** Whatever the store answers and wherever the run is cut, [Clear]
    issues nothing but SCANs of its pattern and UNLINKs that carry at least
    one key. *)
Lemma Clear_loop_commands {redigo : Redigo} {St : Type} (r : Pool St) ns fuel :
  forall cursor keys (w : World St),
  exists new,
    issued (snd (Clear_loop fuel r ns cursor keys w)) = (issued w ++ new)%list
    /\ Forall (Clear_command ns) new.
Proof.
  assert (Hscan : forall cursor, Clear_command ns (scan_command cursor ns)).
  { intros cursor. left. now exists cursor. }
  assert (Hunlink : forall k keys, Clear_command ns ("UNLINK", k :: keys)).
  { intros k keys. right. now exists k, keys. }
  induction fuel as [|fuel IH]; intros cursor keys w.
  - exists []. cbn. rewrite app_nil_r. split; [reflexivity | shape].
  - rewrite Clear_loop_step.
    destruct (scan_keys r ns (store w) cursor keys) as [[e | [cursor' keys']] st1];
      cbn [fst snd].
    + exists [scan_command cursor ns]. split; [reflexivity | shape].
    + destruct keys' as [|k keys'].
      * destruct (cursor' =? 0)%Z.
        -- exists [scan_command cursor ns].
           split; [reflexivity | shape].
        -- destruct (IH cursor' [] (Build_World st1 (issued w ++ [scan_command cursor ns])))
             as (new & Hnew & Hall).
           exists (scan_command cursor ns :: new). rewrite Hnew. cbn [issued].
           rewrite <- app_assoc. split; [reflexivity | shape].
      * cbn [store issued].
        destruct (Do r st1 "UNLINK" (k :: keys')) as [[reply [e|]] s'].
        -- exists [scan_command cursor ns; ("UNLINK", k :: keys')].
           cbn. rewrite <- app_assoc. split; [reflexivity | shape].
        -- destruct (cursor' =? 0)%Z.
           ++ exists [scan_command cursor ns; ("UNLINK", k :: keys')].
              cbn. rewrite <- app_assoc. split; [reflexivity | shape].
           ++ destruct (IH cursor' (k :: keys')
                          (Build_World s' ((issued w ++ [scan_command cursor ns])
                                           ++ [("UNLINK", k :: keys')])))
                as (new & Hnew & Hall).
              exists (scan_command cursor ns :: ("UNLINK", k :: keys') :: new).
              rewrite Hnew. cbn [issued]. rewrite <- !app_assoc. split; [reflexivity | shape].
Qed.

(** Whatever the store answers and wherever the run is cut, [GetKeys]
    issues nothing but SCANs of its pattern. *)
Lemma GetKeys_loop_commands {redigo : Redigo} {St : Type} (r : Pool St) ns fuel :
  forall cursor items keys (w : World St),
  exists new,
    issued (snd (GetKeys_loop fuel r ns cursor items keys w)) = (issued w ++ new)%list
    /\ Forall (fun cmd => exists cursor', cmd = scan_command cursor' ns) new.
Proof.
  induction fuel as [|fuel IH]; intros cursor items keys w.
  - exists []. cbn. rewrite app_nil_r. split; [reflexivity | shape].
  - rewrite GetKeys_loop_step.
    destruct (scan_items r ns (store w) cursor items) as [[e | [cursor' items']] st1];
      cbn [fst snd].
    + exists [scan_command cursor ns]. split; [reflexivity | shape].
    + destruct (cursor' =? 0)%Z.
      * exists [scan_command cursor ns]. split; [reflexivity | shape].
      * destruct (IH cursor' items' (keys ++ items')%list
                    (Build_World st1 (issued w ++ [scan_command cursor ns])))
          as (new & Hnew & Hall).
        exists (scan_command cursor ns :: new). rewrite Hnew. cbn [issued].
        rewrite <- app_assoc. split; [reflexivity | shape].
Qed.

Lemma Clear_command_unlink ns cmd :
  Clear_command ns cmd -> is_unlink cmd = true -> snd cmd <> [].
Proof.
  intros [[cursor ->] | (k & keys & ->)] H; [discriminate H | discriminate].
Qed.



(** C3 as stated fails on a page without keys: the store answers the one
    SCAN with cursor 0 and no key, and [Clear] returns without any UNLINK:
    one page, no UNLINK. *)
Lemma C3_page_without_keys_counterexample :
  Clear ":" 5 (NewCacheFromPool _ (Some scripted)) "*" nil_slice
    (Build_World [scan_reply "0" []] [])
  = (Returns None, Build_World [] [("SCAN", [IInt64 0; IString "MATCH"; IString "*"])])
  /\ Clear_session scripted "*" [scan_reply "0" []] 0 [] [(0%Z, [])] Finished []
  /\ List.length (filter is_unlink
       (issued (snd (Clear ":" 5 (NewCacheFromPool _ (Some scripted)) "*" nil_slice
                       (Build_World [scan_reply "0" []] [])))))
     <> List.length [(0%Z, @nil iface)].
Proof.
  split; [reflexivity|]. split; [|cbn; discriminate].
  eapply cs_last; reflexivity.
Qed.

Section ClearClaims.

Context {redigo : Redigo} {St : Type}.
Variable Separator : string.
Variables (c : option (Cache St)) (r : Pool St).
Hypothesis Hc : usable c = Some r.
Variables (pattern : string) (namespace : slice string).

(** C3, amended: on every session of answers of the store, [Clear] asks
    the SCANs of the loop of [GetKeys] and, after the SCAN that returned a
    page with keys, one UNLINK of that page before the next SCAN (none for
    a page without keys); at the first SCAN or UNLINK that fails it stops
    and returns that error under "failed to clear db", the UNLINKs of the
    pages before having been issued and nothing being issued after. *)
Theorem C3_Clear_pages (w : World St) (pages : list (Z * list iface)) (en : ending)
  (st' : St)
  (Hs : Clear_session r (namespaced Separator pattern namespace) (store w) 0 [] pages en st')
  (fuel : nat) (Hfuel : List.length pages < fuel) :
  let ns := namespaced Separator pattern namespace in
  Clear Separator fuel c pattern namespace w
  = (Returns (clear_result en), Build_World st' (issued w ++ clear_commands ns 0 pages en))
  /\ filter is_scan (clear_commands ns 0 pages en)
     = scan_commands ns 0 (map fst pages) (match en with ScanFailed _ => true | _ => false end)
  /\ (forall e, en = ScanFailed e \/ en = UnlinkFailed e ->
      clear_result en = Some (Errorf ("failed to clear db, reason " ++ Error e))).
Proof.
  intros ns. split; [|split].
  - unfold Clear. rewrite Hc. destruct w as [st log]. cbn [store issued] in *.
    apply (Clear_loop_session r ns _ _ _ _ _ _ Hs fuel log Hfuel).
  - apply clear_commands_scans.
  - intros e [-> | ->]; reflexivity.
Qed.

(** C10: [Clear] issues no UNLINK for a page without keys.  On a session,
    the UNLINKs issued are, in order, those of the pages that have keys;
    and in any run, cut or not, every UNLINK carries at least one key. *)
Theorem C10_unlink_only_for_pages_with_keys (w : World St)
  (pages : list (Z * list iface)) (en : ending) (st' : St)
  (Hs : Clear_session r (namespaced Separator pattern namespace) (store w) 0 [] pages en st')
  (fuel : nat) (Hfuel : List.length pages < fuel) :
  (exists new,
      issued (snd (Clear Separator fuel c pattern namespace w)) = (issued w ++ new)%list
      /\ filter is_unlink new
         = map (fun p => ("UNLINK", p)) (filter has_keys (map snd pages)))
  /\ (forall fuel',
      exists new,
        issued (snd (Clear Separator fuel' c pattern namespace w)) = (issued w ++ new)%list
        /\ Forall (fun cmd => is_unlink cmd = true -> snd cmd <> []) new).
Proof.
  split.
  - exists (clear_commands (namespaced Separator pattern namespace) 0 pages en).
    split; [|apply clear_commands_unlinks].
    unfold Clear. rewrite Hc. destruct w as [st log]. cbn [store issued] in *.
    rewrite (Clear_loop_session r _ _ _ _ _ _ _ Hs fuel log Hfuel). reflexivity.
  - intros fuel'. unfold Clear. rewrite Hc.
    destruct (Clear_loop_commands r (namespaced Separator pattern namespace) fuel' 0 [] w)
      as (new & Hnew & Hall).
    exists new. split; [exact Hnew|].
    apply (Forall_impl _ (Clear_command_unlink _) Hall).
Qed.

End ClearClaims.

Lemma C3_Clear_pages_witness :
  Clear ":" 5 (NewCacheFromPool _ (Some scripted)) "*" (make_slice ["app"])
    (Build_World [scan_reply "7" ["a"; "b"]; (IInt64 2, None); scan_reply "9" [];
                  scan_reply "0" ["c"]; failure "boom"] [])
  = (Returns (Some (Errorf "failed to clear db, reason boom")),
     Build_World []
       [("SCAN", [IInt64 0; IString "MATCH"; IString "app:*"]);
        ("UNLINK", [IBytes "a"; IBytes "b"]);
        ("SCAN", [IInt64 7; IString "MATCH"; IString "app:*"]);
        ("SCAN", [IInt64 9; IString "MATCH"; IString "app:*"]);
        ("UNLINK", [IBytes "c"])]).
Proof.
  assert (Hs : Clear_session scripted "app:*"
                 [scan_reply "7" ["a"; "b"]; (IInt64 2, None); scan_reply "9" [];
                  scan_reply "0" ["c"]; failure "boom"] 0 []
                 [(7%Z, [IBytes "a"; IBytes "b"]); (9%Z, []); (0%Z, [IBytes "c"])]
                 (UnlinkFailed (ConnError "boom")) []).
  { eapply cs_more; [reflexivity | discriminate | exists (IInt64 2); reflexivity |].
    eapply cs_more; [reflexivity | discriminate | reflexivity |].
    eapply cs_unlink_fails; [reflexivity | discriminate | reflexivity]. }
  assert (Hfuel : 3 < 5) by lia.
  exact (proj1 (C3_Clear_pages ":" (NewCacheFromPool _ (Some scripted)) scripted eq_refl "*"
                  (make_slice ["app"]) (Build_World _ []) _ _ _ Hs 5 Hfuel)).
Defined.

Lemma C10_unlink_only_for_pages_with_keys_witness :
  exists new,
    issued (snd (Clear ":" 5 (NewCacheFromPool _ (Some scripted)) "*" nil_slice
                   (Build_World [scan_reply "7" []; scan_reply "0" ["c"]; (IInt64 1, None)] [])))
    = new
    /\ filter is_unlink new = [("UNLINK", [IBytes "c"])].
Proof.
  assert (Hs : Clear_session scripted "*"
                 [scan_reply "7" []; scan_reply "0" ["c"]; (IInt64 1, None)] 0 []
                 [(7%Z, []); (0%Z, [IBytes "c"])] Finished []).
  { eapply cs_more; [reflexivity | discriminate | reflexivity |].
    eapply cs_last; [reflexivity | exists (IInt64 1); reflexivity]. }
  assert (Hfuel : 2 < 5) by lia.
  destruct (proj1 (C10_unlink_only_for_pages_with_keys ":" (NewCacheFromPool _ (Some scripted))
                     scripted eq_refl "*" nil_slice (Build_World _ []) _ _ _ Hs 5 Hfuel))
    as (new & Hnew & Hunlink).
  exists new. split; [exact Hnew | exact Hunlink].
Defined.

(** ** Errors of the store *)

Lemma prefix_app (x b : string) : prefix x (x ++ b) = true.
Proof.
  induction x as [|a x IH]; [destruct b; reflexivity|].
  cbn. destruct (ascii_dec a a) as [_ | Hn]; [exact IH | now elim Hn].
Qed.

Lemma contains_prefix (x s : string) : prefix x s = true -> contains x s = true.
Proof. destruct s; cbn [contains]; intros ->; reflexivity. Qed.

Lemma contains_app (x a b : string) : contains x (a ++ x ++ b) = true.
Proof.
  induction a as [|ch a IH].
  - change ("" ++ x ++ b) with (x ++ b). apply contains_prefix. apply prefix_app.
  - cbn [append contains]. rewrite IH. apply orb_true_r.
Qed.

Lemma contains_suffix (x a : string) : contains x (a ++ x) = true.
Proof.
  pose proof (contains_app x a "") as H.
  replace (x ++ "") with x in H; [exact H|].
  clear. induction x as [|ch x IH]; [reflexivity | cbn; now rewrite <- IH].
Qed.

(** C6 as stated fails on [Clear]: the error that comes back when the
    SCAN fails carries the error of the store but not the pattern that was
    tried. *)
Lemma C6_Clear_error_without_key_counterexample :
  fst (Clear ":" 5 (NewCacheFromPool _ (Some scripted)) "users:*" nil_slice
         (Build_World [failure "boom"] []))
  = Returns (Some (Errorf "failed to clear db, reason boom"))
  /\ wraps_with_key (Errorf "failed to clear db, reason boom") (ConnError "boom")
       (namespaced ":" "users:*" nil_slice) = false.
Proof. split; reflexivity. Qed.

Section StoreErrors.

Context {redigo : Redigo} {St : Type}.
Variables (Separator : string) (intSize : Z).
Variables (c : option (Cache St)) (r : Pool St).
Hypothesis Hc : usable c = Some r.

(** C6, amended: an error [e] that the store returns to GET, SET, SETEX,
    EXISTS or DEL comes back under a message that names the operation and
    the effective key, also through the typed getters; an error returned to
    PING, or to a SCAN or UNLINK of [Clear] or a SCAN of [GetKeys], comes
    back under a message that names the operation only. *)
Theorem C6_store_errors_wrapped (key pattern : string) (value : iface) (duration : Z)
  (namespace : slice string) (w : World St) (e : error) :
  let k := namespaced Separator key namespace in
  let p := namespaced Separator pattern namespace in
  (forall reply s', Do r (store w) "PING" [] = (reply, Some e, s') ->
     fst (Ping c w) = Some (Errorf ("failed to 'PING' db, reason: " ++ Error e))
     /\ wraps (Errorf ("failed to 'PING' db, reason: " ++ Error e)) e = true)
  /\ (forall reply s', Do r (store w) "GET" [IString k] = (reply, Some e, s') ->
     let returned := Errorf ("failed to retrieve key '" ++ k ++ "', reason " ++ Error e) in
     fst (Get Separator c key namespace w) = (INil, Some returned)
     /\ fst (GetBool Separator c key namespace w) = (false, Some returned)
     /\ fst (GetBytes Separator c key namespace w) = (nil_slice, Some returned)
     /\ fst (GetInt Separator c key namespace w) = (0%Z, Some returned)
     /\ fst (GetString Separator c key namespace w) = ("", Some returned)
     /\ wraps_with_key returned e k = true)
  /\ (forall reply s', Do r (store w) "SET" [IString k; value] = (reply, Some e, s') ->
     let returned := Errorf ("failed to set value to key '" ++ k ++ "', reason: " ++ Error e) in
     fst (Set_ Separator c key value namespace w) = Some returned
     /\ wraps_with_key returned e k = true)
  /\ (forall reply s',
        Do r (store w) "SETEX" [IString k; IInt (SetEx_seconds intSize duration); value]
        = (reply, Some e, s') ->
     let returned := Errorf ("failed to set value to key '" ++ k ++ "', reason: " ++ Error e) in
     fst (SetEx Separator intSize c key value duration namespace w) = Some returned
     /\ wraps_with_key returned e k = true)
  /\ (forall reply s', Do r (store w) "EXISTS" [IString k] = (reply, Some e, s') ->
     let returned :=
       Errorf ("failed to check key '" ++ k ++ "' existance, reason: " ++ Error e) in
     fst (Exists Separator c key namespace w) = (false, Some returned)
     /\ wraps_with_key returned e k = true)
  /\ (forall reply s', Do r (store w) "DEL" [IString k] = (reply, Some e, s') ->
     let returned := Errorf ("failed to delete key '" ++ k ++ "', reason: " ++ Error e) in
     fst (Delete Separator c key namespace w) = Some returned
     /\ wraps_with_key returned e k = true)
  /\ (forall fuel pages en st',
        Clear_session r p (store w) 0 [] pages en st' ->
        List.length pages < fuel ->
        en = ScanFailed e \/ en = UnlinkFailed e ->
     fst (Clear Separator fuel c pattern namespace w)
     = Returns (Some (Errorf ("failed to clear db, reason " ++ Error e)))
     /\ wraps (Errorf ("failed to clear db, reason " ++ Error e)) e = true)
  /\ (forall fuel pages st',
        GetKeys_session r p (store w) 0 [] pages (Some e) st' ->
        List.length pages < fuel ->
     fst (GetKeys Separator fuel c pattern namespace w)
     = Returns ([], Some (Errorf ("failed to retrieve keys, reason " ++ Error e)))
     /\ wraps (Errorf ("failed to retrieve keys, reason " ++ Error e)) e = true).
Proof.
  intros k p.
  assert (Hkey : forall a b, wraps_with_key (Errorf (a ++ k ++ b ++ Error e)) e k = true).
  { intros a b. unfold wraps_with_key. cbn [Error].
    rewrite contains_app.
    replace (a ++ k ++ b ++ Error e) with ((a ++ k ++ b) ++ Error e).
    - now rewrite contains_suffix.
    - clear. induction a as [|ch a IH]; cbn.
      + induction k as [|ch k IH]; cbn; [reflexivity | now rewrite IH].
      + now rewrite IH. }
  assert (Hop : forall a, wraps (Errorf (a ++ Error e)) e = true).
  { intros a. unfold wraps. cbn [Error]. apply contains_suffix. }
  repeat match goal with |- _ /\ _ => split end.
  - intros reply s' HDo. split; [|apply Hop].
    unfold Ping, bind, conn_Do, ret. rewrite Hc, HDo. reflexivity.
  - intros reply s' HDo returned.
    assert (HGet : Get Separator c key namespace w
                   = ((INil, Some returned),
                      Build_World s' (issued w ++ [("GET", [IString k])]))).
    { unfold Get, bind, conn_Do, ret. rewrite Hc. fold k. rewrite HDo. reflexivity. }
    unfold GetBool, GetBytes, GetInt, GetString, bind, ret. rewrite HGet.
    rewrite redis_Bool_err, redis_Bytes_err, redis_Int_err, redis_String_err.
    repeat split. apply Hkey.
  - intros reply s' HDo returned. split; [|apply Hkey].
    unfold Set_, bind, conn_Do, ret. rewrite Hc. fold k. rewrite HDo. reflexivity.
  - intros reply s' HDo returned. split; [|apply Hkey].
    unfold SetEx, bind, conn_Do, ret. rewrite Hc. fold k. rewrite HDo. reflexivity.
  - intros reply s' HDo returned. split; [|apply Hkey].
    unfold Exists, bind, conn_Do, ret. rewrite Hc. fold k. rewrite HDo.
    rewrite redis_Bool_err. reflexivity.
  - intros reply s' HDo returned. split; [|apply Hkey].
    unfold Delete, bind, conn_Do, ret. rewrite Hc. fold k. rewrite HDo. reflexivity.
  - intros fuel pages en st' Hs Hfuel Hen. split; [|apply Hop].
    subst p. unfold Clear. rewrite Hc. destruct w as [st log]. cbn [store issued] in *.
    rewrite (Clear_loop_session r _ _ _ _ _ _ _ Hs fuel log Hfuel).
    destruct Hen as [-> | ->]; reflexivity.
  - intros fuel pages st' Hs Hfuel. split; [|apply Hop].
    subst p. unfold GetKeys. rewrite Hc. destruct w as [st log]. cbn [store issued] in *.
    rewrite (GetKeys_loop_session r _ _ _ _ _ _ _ Hs fuel [] log Hfuel). reflexivity.
Qed.

End StoreErrors.

Lemma C6_store_errors_wrapped_witness :
  let client := NewCacheFromPool _ (Some scripted) in
  let w0 := Build_World [failure "boom"] [] in
  fst (Ping client w0) = Some (Errorf "failed to 'PING' db, reason: boom")
  /\ fst (Get ":" client "k" (make_slice ["n"]) w0)
     = (INil, Some (Errorf "failed to retrieve key 'n:k', reason boom"))
  /\ fst (GetInt ":" client "k" (make_slice ["n"]) w0)
     = (0%Z, Some (Errorf "failed to retrieve key 'n:k', reason boom"))
  /\ fst (Set_ ":" client "k" (IString "v") (make_slice ["n"]) w0)
     = Some (Errorf "failed to set value to key 'n:k', reason: boom")
  /\ fst (SetEx ":" 64 client "k" (IString "v") 0 (make_slice ["n"]) w0)
     = Some (Errorf "failed to set value to key 'n:k', reason: boom")
  /\ fst (Exists ":" client "k" (make_slice ["n"]) w0)
     = (false, Some (Errorf "failed to check key 'n:k' existance, reason: boom"))
  /\ fst (Delete ":" client "k" (make_slice ["n"]) w0)
     = Some (Errorf "failed to delete key 'n:k', reason: boom")
  /\ fst (Clear ":" 5 client "*" (make_slice ["n"]) w0)
     = Returns (Some (Errorf "failed to clear db, reason boom"))
  /\ fst (GetKeys ":" 5 client "*" (make_slice ["n"]) w0)
     = Returns ([], Some (Errorf "failed to retrieve keys, reason boom")).
Proof.
  intros client w0.
  pose proof (C6_store_errors_wrapped (redigo := table_redigo) ":" 64 client scripted eq_refl
                "k" "*" (IString "v") 0 (make_slice ["n"]) w0 (ConnError "boom")) as T.
  cbv zeta in T.
  destruct T as (HPing & HGet & HSet & HSetEx & HExists & HDel & HClear & HKeys).
  assert (Hfuel : 0 < 5) by lia.
  repeat match goal with |- _ /\ _ => split end.
  - exact (proj1 (HPing INil [] eq_refl)).
  - exact (proj1 (HGet INil [] eq_refl)).
  - exact (proj1 (proj2 (proj2 (proj2 (HGet INil [] eq_refl))))).
  - exact (proj1 (HSet INil [] eq_refl)).
  - exact (proj1 (HSetEx INil [] eq_refl)).
  - exact (proj1 (HExists INil [] eq_refl)).
  - exact (proj1 (HDel INil [] eq_refl)).
  - refine (proj1 (HClear 5 [] (ScanFailed (ConnError "boom")) [] _ Hfuel (or_introl eq_refl))).
    apply cs_scan_fails. reflexivity.
  - refine (proj1 (HKeys 5 [] [] _ Hfuel)).
    apply gs_fails. reflexivity.
Defined.

(** ** The MATCH argument *)


(** * More of the package *)

(** ** When [NotInitializedError] comes back *)

Lemma usable_None {St} (c : option (Cache St)) : usable c = None <-> not_initialized c.
Proof.
  split; [|apply not_initialized_usable].
  destruct c as [[[p|]]|]; cbn; intros H; [discriminate H | right | left; reflexivity].
  eexists. split; reflexivity.
Qed.

Lemma Clear_loop_error {redigo : Redigo} {St : Type} (r : Pool St) ns fuel :
  forall cursor keys (w : World St) e',
    fst (Clear_loop fuel r ns cursor keys w) = Returns (Some e') ->
    exists e, e' = Clear_msg e.
Proof.
  induction fuel as [|fuel IH]; intros cursor keys w e' H; [discriminate H|].
  rewrite Clear_loop_step in H.
  destruct (scan_keys r ns (store w) cursor keys) as [[e | [cursor' keys']] st1];
    cbn [fst snd] in H.
  - injection H as <-. now exists e.
  - destruct keys' as [|k keys'].
    + destruct (cursor' =? 0)%Z; [discriminate H | exact (IH _ _ _ _ H)].
    + cbn [store issued] in H.
      destruct (Do r st1 "UNLINK" (k :: keys')) as [[reply [e|]] s'].
      * injection H as <-. now exists e.
      * destruct (cursor' =? 0)%Z; [discriminate H | exact (IH _ _ _ _ H)].
Qed.

Lemma GetKeys_loop_error {redigo : Redigo} {St : Type} (r : Pool St) ns fuel :
  forall cursor items keys (w : World St) res e',
    fst (GetKeys_loop fuel r ns cursor items keys w) = Returns (res, Some e') ->
    res = [] /\ exists e, e' = GetKeys_msg e.
Proof.
  induction fuel as [|fuel IH]; intros cursor items keys w res e' H; [discriminate H|].
  rewrite GetKeys_loop_step in H.
  destruct (scan_items r ns (store w) cursor items) as [[e | [cursor' items']] st1];
    cbn [fst snd] in H.
  - injection H as <- <-. split; [reflexivity | now exists e].
  - destruct (cursor' =? 0)%Z; [discriminate H | exact (IH _ _ _ _ _ _ H)].
Qed.

Section Initialized.

Context {redigo : Redigo} {St : Type}.
Variables (Separator : string) (intSize : Z).

(** [Ping], [Get], [Set], [SetEx], [Exists], [Delete], [Clear] and
    [GetKeys] return [NotInitializedError] only on a client that is nil or
    has a nil pool: on any other client the error is nil or one built by
    [fmt.Errorf], whatever the store answers. *)
Theorem NotInitializedError_only_uninitialized (c : option (Cache St)) (fuel : nat)
  (key pattern : string) (value : iface) (duration : Z) (namespace : slice string)
  (w : World St) :
  (fst (Ping c w) = Some NotInitializedError <-> not_initialized c)
  /\ (snd (fst (Get Separator c key namespace w)) = Some NotInitializedError
      <-> not_initialized c)
  /\ (fst (Set_ Separator c key value namespace w) = Some NotInitializedError
      <-> not_initialized c)
  /\ (fst (SetEx Separator intSize c key value duration namespace w)
      = Some NotInitializedError <-> not_initialized c)
  /\ (snd (fst (Exists Separator c key namespace w)) = Some NotInitializedError
      <-> not_initialized c)
  /\ (fst (Delete Separator c key namespace w) = Some NotInitializedError
      <-> not_initialized c)
  /\ (fst (Clear Separator fuel c pattern namespace w) = Returns (Some NotInitializedError)
      <-> not_initialized c)
  /\ ((exists keys, fst (GetKeys Separator fuel c pattern namespace w)
                    = Returns (keys, Some NotInitializedError))
      <-> not_initialized c).
Proof.
  rewrite <- usable_None.
  unfold Ping, Get, Set_, SetEx, Exists, Delete, Clear, GetKeys, bind, ret, conn_Do.
  destruct (usable c) as [r|].
  - repeat match goal with |- _ /\ _ => split end;
      (split; [|discriminate]); intros H; exfalso;
      repeat match type of H with
             | context [Do r ?s ?n ?a] => destruct (Do r s n a) as [[? [?|]] ?]
             | context [redis_Bool ?x ?y] => destruct (redis_Bool x y) as [? [?|]]
             end; cbn in H; try discriminate H.
    + apply Clear_loop_error in H as [e H]. discriminate H.
    + destruct H as [keys H]. apply GetKeys_loop_error in H as [_ [e H]]. discriminate H.
  - repeat match goal with |- _ /\ _ => split end; split; try reflexivity.
    intros _. now exists [].
Qed.

Variables (c : option (Cache St)) (r : Pool St).
Hypothesis Hc : usable c = Some r.

(** On an initialized client [Ping], [Get], the typed getters, [Set],
    [SetEx], [Exists] and [Delete] hand exactly one command to the store,
    whether it fails or not (nothing is retried), and leave the store as
    that command left it. *)
Theorem one_command_per_operation (key : string) (value : iface) (duration : Z)
  (namespace : slice string) (w : World St) :
  let k := namespaced Separator key namespace in
  let after name args :=
    Build_World (snd (Do r (store w) name args)) (issued w ++ [(name, args)]) in
  snd (Ping c w) = after "PING" []
  /\ snd (Get Separator c key namespace w) = after "GET" [IString k]
  /\ snd (GetBool Separator c key namespace w) = after "GET" [IString k]
  /\ snd (GetBytes Separator c key namespace w) = after "GET" [IString k]
  /\ snd (GetInt Separator c key namespace w) = after "GET" [IString k]
  /\ snd (GetString Separator c key namespace w) = after "GET" [IString k]
  /\ snd (Set_ Separator c key value namespace w) = after "SET" [IString k; value]
  /\ snd (SetEx Separator intSize c key value duration namespace w)
     = after "SETEX" [IString k; IInt (SetEx_seconds intSize duration); value]
  /\ snd (Exists Separator c key namespace w) = after "EXISTS" [IString k]
  /\ snd (Delete Separator c key namespace w) = after "DEL" [IString k].
Proof.
  intros k after.
  unfold Ping, GetBool, GetBytes, GetInt, GetString, Get, Set_, SetEx, Exists, Delete,
    bind, ret, conn_Do, after.
  rewrite Hc. fold k.
  repeat match goal with |- _ /\ _ => split end;
    repeat match goal with
           | |- context [Do r ?s ?n ?a] => destruct (Do r s n a) as [[? [?|]] ?]
           | |- context [redis_Bool ?x ?y] => destruct (redis_Bool x y) as [? [?|]]
           end; reflexivity.
Qed.

(** [Ping], [Set], [SetEx] and [Delete] succeed exactly when the store
    returns no error: the reply is not read, so a DEL that found no key to
    delete is a success like any other.  [Get] hands the reply of GET back
    as it is, a nil reply for a missing key included. *)
Theorem outcome_is_the_error_of_the_store (key : string) (value : iface) (duration : Z)
  (namespace : slice string) (w : World St) :
  let k := namespaced Separator key namespace in
  let reply name args := fst (fst (Do r (store w) name args)) in
  let err name args := snd (fst (Do r (store w) name args)) in
  (fst (Ping c w) = None <-> err "PING" [] = None)
  /\ (fst (Set_ Separator c key value namespace w) = None
      <-> err "SET" [IString k; value] = None)
  /\ (fst (SetEx Separator intSize c key value duration namespace w) = None
      <-> err "SETEX" [IString k; IInt (SetEx_seconds intSize duration); value] = None)
  /\ (fst (Delete Separator c key namespace w) = None <-> err "DEL" [IString k] = None)
  /\ (snd (fst (Get Separator c key namespace w)) = None <-> err "GET" [IString k] = None)
  /\ (err "GET" [IString k] = None ->
      fst (Get Separator c key namespace w) = (reply "GET" [IString k], None)).
Proof.
  intros k reply err.
  unfold Ping, Get, Set_, SetEx, Delete, bind, ret, conn_Do, reply, err.
  rewrite Hc. fold k.
  repeat match goal with |- _ /\ _ => split end;
    repeat match goal with
           | |- context [Do r ?s ?n ?a] => destruct (Do r s n a) as [[? [?|]] ?]
           end; cbn; try (split; intros H; (reflexivity || discriminate H));
    intros H; (reflexivity || discriminate H).
Qed.


End Initialized.

Lemma one_command_per_operation_witness :
  snd (Delete ":" (NewCacheFromPool _ (Some scripted)) "k" (make_slice ["n"])
         (Build_World [failure "boom"; (IInt64 1, None)] []))
  = Build_World [(IInt64 1, None)] [("DEL", [IString "n:k"])].
Proof.
  exact (proj2 (proj2 (proj2 (proj2 (proj2 (proj2 (proj2 (proj2 (proj2
    (one_command_per_operation (redigo := table_redigo) ":" 64
       (NewCacheFromPool _ (Some scripted)) scripted eq_refl "k" INil 0 (make_slice ["n"])
       (Build_World [failure "boom"; (IInt64 1, None)] []))))))))))).
Defined.

Lemma outcome_is_the_error_of_the_store_witness :
  fst (Delete ":" (NewCacheFromPool _ (Some memory)) "missing" nil_slice (Build_World [] []))
  = None.
Proof.
  apply (proj1 (proj2 (proj2 (proj2
    (outcome_is_the_error_of_the_store ":" 64 (NewCacheFromPool _ (Some memory)) memory
       eq_refl "missing" INil 0 nil_slice (Build_World [] []))))));
  reflexivity.
Defined.


(** ** Effective keys, again *)

Lemma string_app_inv_tail_length (a b c d : string) :
  a ++ b = c ++ d -> String.length a = String.length c -> a = c /\ b = d.
Proof.
  revert c. induction a as [|x a IH]; intros [|y c] H Hl; try discriminate Hl.
  - split; [reflexivity | exact H].
  - cbn in H, Hl. injection H as -> H. injection Hl as Hl.
    destruct (IH c H Hl) as [-> ->]. split; reflexivity.
Qed.

(** The effective key of a call with namespace segments is longer than
    the base key, hence another key than the one of the same call without
    namespace; and under one namespace and separator, two base keys give
    the same effective key only if they are the same. *)
Theorem namespaced_keys_apart (Separator : string) (namespace : slice string)
  (key key' : string) :
  ((0 < len namespace)%nat ->
   (String.length key < String.length (namespaced Separator key namespace))%nat
   /\ namespaced Separator key namespace <> namespaced Separator key nil_slice)
  /\ (namespaced Separator key namespace = namespaced Separator key' namespace ->
      key = key').
Proof.
  unfold namespaced. split.
  - intros H. apply Nat.ltb_lt in H. rewrite H. cbn [len elems List.length Nat.ltb Nat.leb].
    assert (Hl : (String.length key
                  < String.length (strings_Join namespace Separator ++ ":" ++ key))%nat).
    { rewrite string_app_length. cbn. lia. }
    split; [exact Hl|]. intros E. rewrite E in Hl. lia.
  - destruct (0 <? len namespace)%nat; [|trivial].
    intros E. apply string_app_inv_head in E. now injection E.
Qed.

Lemma namespaced_keys_apart_witness :
  namespaced "/" "k" (make_slice ["a"]) <> namespaced "/" "k" nil_slice
  /\ "k" = "k".
Proof.
  split.
  - apply (proj1 (namespaced_keys_apart "/" (make_slice ["a"]) "k" "k")). cbn. lia.
  - apply (proj2 (namespaced_keys_apart "/" (make_slice ["a"]) "k" "k")). reflexivity.
Defined.

Lemma concat_snoc (sep : string) (seg : string) : forall segs,
  segs <> [] -> String.concat sep (segs ++ [seg]) = String.concat sep segs ++ sep ++ seg.
Proof.
  induction segs as [|x segs IH]; intros H; [now elim H|].
  destruct segs as [|y segs]; [reflexivity|].
  change (String.concat sep ((x :: y :: segs) ++ [seg]))
    with (x ++ sep ++ String.concat sep ((y :: segs) ++ [seg])).
  rewrite IH by discriminate.
  change (String.concat sep (x :: y :: segs)) with (x ++ sep ++ String.concat sep (y :: segs)).
  now rewrite !string_app_assoc.
Qed.

(** Nothing is escaped: with the default separator, the last namespace
    segment and a prefix of the base key cannot be told apart.  The call
    with the segments [segs ++ [seg]] and the key [key] and the call with
    the segments [segs] and the key [seg ++ ":" ++ key] address the same
    key of the store. *)
Theorem namespaced_ambiguous (segs : list string) (seg key : string) :
  namespaced DefaultSeparator key (make_slice (segs ++ [seg]))
  = namespaced DefaultSeparator (seg ++ ":" ++ key) (make_slice segs).
Proof.
  unfold namespaced, strings_Join, len, DefaultSeparator. cbn [elems].
  destruct segs as [|x segs]; [reflexivity|].
  cbn [List.length app Nat.ltb Nat.leb].
  change (x :: (segs ++ [seg])%list) with ((x :: segs) ++ [seg])%list.
  rewrite concat_snoc by discriminate. now rewrite !string_app_assoc.
Qed.

(** With the default separator the keyed operations address the key that
    joins the segments and the base key with ":"; and when there is one
    segment only, [Separator] is not read at all: the key is the segment,
    ":", and the base key, whatever the separator. *)
Theorem effective_key_default_separator {St : Type} (c : option (Cache St)) (r : Pool St)
  (Hc : usable c = Some r) (key : string) (value : iface) (segs : list string)
  (w : World St) :
  let k := spec_key ":" key segs in
  issued (snd (Get DefaultSeparator c key (make_slice segs) w)) = (issued w ++ [("GET", [IString k])])%list
  /\ issued (snd (Set_ DefaultSeparator c key value (make_slice segs) w))
     = (issued w ++ [("SET", [IString k; value])])%list
  /\ issued (snd (Delete DefaultSeparator c key (make_slice segs) w))
     = (issued w ++ [("DEL", [IString k])])%list
  /\ (forall Separator seg,
        namespaced Separator key (make_slice [seg]) = seg ++ ":" ++ key).
Proof.
  intros k. unfold Get, Set_, Delete, bind, ret, conn_Do. rewrite Hc.
  rewrite namespaced_default. fold k.
  repeat match goal with |- _ /\ _ => split end;
    repeat match goal with
           | |- context [Do r ?s ?n ?a] => destruct (Do r s n a) as [[? [?|]] ?]
           end; reflexivity.
Qed.

Lemma effective_key_default_separator_witness :
  issued (snd (Get DefaultSeparator (NewCacheFromPool _ (Some memory)) "k"
                 (make_slice ["a"; "b"]) (Build_World [] [])))
  = [("GET", [IString "a:b:k"])].
Proof.
  exact (proj1 (effective_key_default_separator (NewCacheFromPool _ (Some memory)) memory
                  eq_refl "k" INil ["a"; "b"] (Build_World [] []))).
Defined.

(** ** Seconds of SETEX, again *)

Lemma int_of_int64_range (bits x : Z) :
  (0 < bits)%Z -> (- 2 ^ (bits - 1) <= int_of_int64 bits x < 2 ^ (bits - 1))%Z.
Proof.
  intros Hb. unfold int_of_int64.
  assert (E : (2 ^ bits = 2 * 2 ^ (bits - 1))%Z).
  { replace bits with (Z.succ (bits - 1)) at 1 by lia. apply Z.pow_succ_r. lia. }
  assert (Hp : (0 < 2 ^ (bits - 1))%Z) by (apply Z.pow_pos_nonneg; lia).
  pose proof (Z.mod_pos_bound (x + 2 ^ (bits - 1)) (2 ^ bits) ltac:(lia)). lia.
Qed.

(** Where [int] is 32 bits wide, SETEX receives the whole seconds of the
    duration exactly when they fit in 32 bits, that is below 2^31 seconds
    (some 68 years) in absolute value; beyond, the conversion [int(...)]
    wraps and the sign can turn. *)
Theorem SetEx_seconds_32 (d : Z) :
  (SetEx_seconds 32 d = Z.quot d time_Second
   <-> (- 2 ^ 31 <= Z.quot d time_Second < 2 ^ 31)%Z)
  /\ SetEx_seconds 32 (2 ^ 31 * time_Second) = (- 2 ^ 31)%Z.
Proof.
  split; [|reflexivity]. unfold SetEx_seconds. split.
  - intros E. rewrite <- E. apply (int_of_int64_range 32). lia.
  - intros H. unfold int_of_int64. change (32 - 1)%Z with 31%Z.
    rewrite Z.mod_small; [lia|]. change (2 ^ 32)%Z with (2 * 2 ^ 31)%Z. lia.
Qed.

(** Where [int] is 64 bits wide: SETEX receives a time to live of at
    least one second exactly when the duration is at least one second, and
    a longer duration never gives fewer seconds. *)
Theorem SetEx_seconds_order (d d' : Z) (Hd : int64_range d) (Hd' : int64_range d') :
  ((1 <= SetEx_seconds 64 d)%Z <-> (time_Second <= d)%Z)
  /\ ((d <= d')%Z -> (SetEx_seconds 64 d <= SetEx_seconds 64 d')%Z).
Proof.
  rewrite !SetEx_seconds_64 by assumption. unfold time_Second. split.
  - split; intros H.
    + destruct (Z.lt_ge_cases d 1000000000) as [Hlt | Hge]; [|exact Hge].
      destruct (Z.le_gt_cases 0 d) as [H0 | H0].
      * rewrite Z.quot_small in H by lia. lia.
      * pose proof (Z.quot_le_mono d 0 1000000000 ltac:(lia) ltac:(lia)) as Hq.
        rewrite Z.quot_0_l in Hq by lia. lia.
    + pose proof (Z.quot_le_mono 1000000000 d 1000000000 ltac:(lia) H) as Hq.
      rewrite Z.quot_same in Hq by lia. exact Hq.
  - intros H. apply Z.quot_le_mono; lia.
Qed.

Lemma SetEx_seconds_order_witness :
  (SetEx_seconds 64 1500000000 <= SetEx_seconds 64 2000000000)%Z.
Proof.
  assert (H1 : int64_range 1500000000) by (unfold int64_range; lia).
  assert (H2 : int64_range 2000000000) by (unfold int64_range; lia).
  apply (proj2 (SetEx_seconds_order 1500000000 2000000000 H1 H2)). lia.
Defined.

(** ** Runs of the loops that return *)

Section Returns.

Context {redigo : Redigo} {St : Type}.
Variable r : Pool St.
Variable ns : string.

Lemma GetKeys_session_ends_at_0 st cursor items pages st' :
  GetKeys_session r ns st cursor items pages None st' ->
  exists front page,
    pages = (front ++ [(0%Z, page)])%list /\ Forall (fun p => fst p <> 0%Z) front.
Proof.
  remember None as oe eqn:Hoe. induction 1 as [| st cursor items page st' Hs
    | st cursor items cursor' page st1 pages oe st' Hs Hc Hrest IH]; [discriminate Hoe | |].
  - exists [], page. split; [reflexivity | constructor].
  - destruct (IH Hoe) as (front & last & -> & Hall).
    exists ((cursor', page) :: front), last. split; [reflexivity|].
    constructor; [exact Hc | exact Hall].
Qed.

Lemma GetKeys_loop_returns_exact fuel : forall cursor items keys (w w' : World St) res,
  GetKeys_loop fuel r ns cursor items keys w = (Returns res, w') ->
  exists pages oe,
    GetKeys_session r ns (store w) cursor items pages oe (store w')
    /\ res = match oe with
             | None => ((keys ++ List.concat (map snd pages))%list, None)
             | Some e => ([], Some (GetKeys_msg e))
             end
    /\ issued w' = (issued w ++ scan_commands ns cursor (map fst pages)
                                  (match oe with Some _ => true | None => false end))%list.
Proof.
  induction fuel as [|fuel IH]; intros cursor items keys w w' res Hrun.
  - discriminate Hrun.
  - rewrite GetKeys_loop_step in Hrun.
    destruct (scan_items r ns (store w) cursor items) as [[e | [cursor' items']] st1] eqn:Hs;
      cbn [fst snd] in Hrun.
    + injection Hrun as <- <-. exists [], (Some e).
      split; [now apply gs_fails | split; reflexivity].
    + destruct (Z.eqb_spec cursor' 0) as [-> | Hc].
      * injection Hrun as <- <-. exists [(0%Z, items')], None.
        split; [now apply gs_last|]. cbn. rewrite app_nil_r. split; reflexivity.
      * apply IH in Hrun. destruct Hrun as (pages & oe & Hsess & -> & ->).
        exists ((cursor', items') :: pages), oe.
        split; [eapply gs_more; eauto|]. cbn [store issued map fst snd List.concat scan_commands].
        rewrite <- !app_assoc. split; reflexivity.
Qed.

Lemma Clear_loop_returns_exact fuel : forall cursor keys (w w' : World St) res,
  Clear_loop fuel r ns cursor keys w = (Returns res, w') ->
  exists pages en,
    Clear_session r ns (store w) cursor keys pages en (store w')
    /\ res = clear_result en
    /\ issued w' = (issued w ++ clear_commands ns cursor pages en)%list.
Proof.
  induction fuel as [|fuel IH]; intros cursor keys w w' res Hrun.
  - discriminate Hrun.
  - rewrite Clear_loop_step in Hrun.
    destruct (scan_keys r ns (store w) cursor keys) as [[e | [cursor' keys']] st1] eqn:Hs;
      cbn [fst snd] in Hrun.
    + injection Hrun as <- <-. exists [], (ScanFailed e).
      split; [now apply cs_scan_fails | split; reflexivity].
    + destruct keys' as [|k keys'].
      * destruct (Z.eqb_spec cursor' 0) as [-> | Hc].
        -- injection Hrun as <- <-. exists [(0%Z, [])], Finished.
           split; [eapply cs_last; [eassumption | reflexivity]|].
           cbn. split; reflexivity.
        -- apply IH in Hrun. destruct Hrun as (pages & en & Hsess & -> & ->).
           exists ((cursor', []) :: pages), en.
           split; [eapply cs_more; [eassumption | assumption | reflexivity | exact Hsess]|].
           cbn. rewrite <- !app_assoc. split; reflexivity.
      * cbn [store issued] in Hrun.
        destruct (Do r st1 "UNLINK" (k :: keys')) as [[reply [e|]] s'] eqn:Hu.
        -- injection Hrun as <- <-. exists [(cursor', k :: keys')], (UnlinkFailed e).
           split; [eapply cs_unlink_fails; [eassumption | discriminate | eassumption]|].
           cbn. rewrite <- !app_assoc. split; reflexivity.
        -- destruct (Z.eqb_spec cursor' 0) as [-> | Hc].
           ++ injection Hrun as <- <-. exists [(0%Z, k :: keys')], Finished.
              split; [eapply cs_last; [eassumption | exists reply; eassumption]|].
              cbn. rewrite <- !app_assoc. split; reflexivity.
           ++ apply IH in Hrun. destruct Hrun as (pages & en & Hsess & -> & ->).
              exists ((cursor', k :: keys') :: pages), en.
              split; [eapply cs_more;
                      [eassumption | assumption | exists reply; eassumption | exact Hsess]|].
              cbn. rewrite <- !app_assoc. split; reflexivity.
Qed.

(** Without a page of cursor 0 and without a failure the loops do not end:
    on a store that answers every SCAN with a cursor other than 0 (and, for
    [Clear], every UNLINK without error), no bound on the iterations lets
    [GetKeys] or [Clear] return, and each iteration issues a further
    SCAN. *)
Lemma loops_unbounded_on_endless_scan
  (Hitems : forall st cursor items, exists cursor' page st',
      scan_items r ns st cursor items = (inr (cursor', page), st') /\ cursor' <> 0%Z)
  (Hkeys : forall st cursor keys, exists cursor' page st',
      scan_keys r ns st cursor keys = (inr (cursor', page), st') /\ cursor' <> 0%Z)
  (Hunlink : forall st page, snd (fst (Do r st "UNLINK" page)) = None)
  (fuel : nat) :
  (forall cursor items keys (w : World St),
      fst (GetKeys_loop fuel r ns cursor items keys w) = OutOfFuel
      /\ List.length (filter is_scan (issued (snd (GetKeys_loop fuel r ns cursor items keys w))))
         = List.length (filter is_scan (issued w)) + fuel)
  /\ (forall cursor keys (w : World St),
      fst (Clear_loop fuel r ns cursor keys w) = OutOfFuel
      /\ List.length (filter is_scan (issued (snd (Clear_loop fuel r ns cursor keys w))))
         = List.length (filter is_scan (issued w)) + fuel).
Proof.
  induction fuel as [|fuel [IHg IHc]].
  - split; intros; cbn; split; [reflexivity | lia | reflexivity | lia].
  - split.
    + intros cursor items keys w. rewrite GetKeys_loop_step.
      destruct (Hitems (store w) cursor items) as (cursor' & page & st' & -> & Hc).
      cbn [fst snd]. apply Z.eqb_neq in Hc. rewrite Hc.
      destruct (IHg cursor' page (keys ++ page)%list
                  (Build_World st' (issued w ++ [scan_command cursor ns]))) as [-> ->].
      split; [reflexivity|]. cbn [issued]. rewrite filter_app, length_app. cbn. lia.
    + intros cursor keys w. rewrite Clear_loop_step.
      destruct (Hkeys (store w) cursor keys) as (cursor' & page & st' & -> & Hc).
      cbn [fst snd]. apply Z.eqb_neq in Hc. rewrite Hc.
      destruct page as [|k page].
      * destruct (IHc cursor' [] (Build_World st' (issued w ++ [scan_command cursor ns])))
          as [-> ->].
        split; [reflexivity|]. cbn [issued]. rewrite filter_app, length_app. cbn. lia.
      * cbn [store issued]. pose proof (Hunlink st' (k :: page)) as Hu.
        destruct (Do r st' "UNLINK" (k :: page)) as [[reply err] s']. cbn in Hu. subst err.
        destruct (IHc cursor' (k :: page)
                    (Build_World s' ((issued w ++ [scan_command cursor ns])
                                     ++ [("UNLINK", k :: page)]))) as [-> ->].
        split; [reflexivity|]. cbn [issued]. rewrite !filter_app, !length_app. cbn. lia.
Qed.

End Returns.

Section ReturnsOfTheClient.

Context {redigo : Redigo} {St : Type}.
Variable Separator : string.
Variables (c : option (Cache St)) (r : Pool St).
Hypothesis Hc : usable c = Some r.
Variables (pattern : string) (namespace : slice string).

(** [GetKeys] returns keys without an error only at the end of a scan:
    whenever it does, the store answered the SCANs with pages of which the
    last, and only the last, carries cursor 0; the keys returned are those
    of the pages, in order, and the commands issued are the SCANs of the
    pages. *)
Theorem GetKeys_returns_at_cursor_0 (fuel : nat) (w w' : World St) (keys : list string)
  (Hrun : GetKeys Separator fuel c pattern namespace w = (Returns (keys, None), w')) :
  let ns := namespaced Separator pattern namespace in
  exists front page,
    GetKeys_session r ns (store w) 0 [] (front ++ [(0%Z, page)]) None (store w')
    /\ Forall (fun p => fst p <> 0%Z) front
    /\ keys = List.concat (map snd (front ++ [(0%Z, page)]))
    /\ issued w' = (issued w ++ scan_commands ns 0 (map fst (front ++ [(0%Z, page)])) false)%list.
Proof.
  intros ns. unfold GetKeys in Hrun. rewrite Hc in Hrun. fold ns in Hrun.
  apply GetKeys_loop_returns_exact in Hrun as (pages & oe & Hs & Hres & Hlog).
  destruct oe as [e|]; [discriminate Hres|]. injection Hres as ->.
  destruct (GetKeys_session_ends_at_0 r ns _ _ _ _ _ Hs) as (front & page & -> & Hall).
  exists front, page. repeat split; assumption.
Qed.

(** [Clear] returns after a session of the store and in no other way:
    whenever it returns, its result and its commands are those of the
    session; a nil result means that the scan reached cursor 0 and that
    the UNLINK of every page with keys was accepted. *)
Theorem Clear_returns_after_session (fuel : nat) (w w' : World St) (res : option error)
  (Hrun : Clear Separator fuel c pattern namespace w = (Returns res, w')) :
  let ns := namespaced Separator pattern namespace in
  exists pages en,
    Clear_session r ns (store w) 0 [] pages en (store w')
    /\ res = clear_result en
    /\ issued w' = (issued w ++ clear_commands ns 0 pages en)%list
    /\ (res = None <-> en = Finished).
Proof.
  intros ns. unfold Clear in Hrun. rewrite Hc in Hrun. fold ns in Hrun.
  apply Clear_loop_returns_exact in Hrun as (pages & en & Hs & -> & Hlog).
  exists pages, en. repeat split; try assumption.
  - destruct en; [reflexivity | discriminate | discriminate].
  - intros ->. reflexivity.
Qed.

(** The loops have no bound of their own: on a store that answers every
    SCAN with a cursor other than 0 and accepts every UNLINK, [GetKeys] and
    [Clear] do not return within any number of iterations, and issue one
    more SCAN at each. *)
Theorem loops_end_only_at_cursor_0_or_failure
  (Hitems : forall st cursor items, exists cursor' page st',
      scan_items r (namespaced Separator pattern namespace) st cursor items
      = (inr (cursor', page), st') /\ cursor' <> 0%Z)
  (Hkeys : forall st cursor keys, exists cursor' page st',
      scan_keys r (namespaced Separator pattern namespace) st cursor keys
      = (inr (cursor', page), st') /\ cursor' <> 0%Z)
  (Hunlink : forall st page, snd (fst (Do r st "UNLINK" page)) = None)
  (fuel : nat) (w : World St) :
  fst (GetKeys Separator fuel c pattern namespace w) = OutOfFuel
  /\ List.length (filter is_scan (issued (snd (GetKeys Separator fuel c pattern namespace w))))
     = List.length (filter is_scan (issued w)) + fuel
  /\ fst (Clear Separator fuel c pattern namespace w) = OutOfFuel
  /\ List.length (filter is_scan (issued (snd (Clear Separator fuel c pattern namespace w))))
     = List.length (filter is_scan (issued w)) + fuel.
Proof.
  unfold GetKeys, Clear. rewrite Hc.
  destruct (loops_unbounded_on_endless_scan r _ Hitems Hkeys Hunlink fuel) as [Hg Hcl].
  destruct (Hg 0%Z [] [] w) as [H1 H2]. destruct (Hcl 0%Z [] w) as [H3 H4].
  repeat split; assumption.
Qed.

End ReturnsOfTheClient.

Lemma GetKeys_returns_at_cursor_0_witness :
  exists front page,
    ["a"; "b"; "a"] = List.concat (map snd (front ++ [(0%Z, page)]))
    /\ Forall (fun p : Z * list string => fst p <> 0%Z) front.
Proof.
  assert (Hrun : GetKeys ":" 5 (NewCacheFromPool _ (Some scripted)) "*" (make_slice ["app"])
                   (Build_World [scan_reply "17" ["a"; "b"]; scan_reply "0" ["a"]] [])
                 = (Returns (["a"; "b"; "a"], None),
                    Build_World []
                      [("SCAN", [IInt64 0; IString "MATCH"; IString "app:*"]);
                       ("SCAN", [IInt64 17; IString "MATCH"; IString "app:*"])]))
    by reflexivity.
  destruct (GetKeys_returns_at_cursor_0 ":" (NewCacheFromPool _ (Some scripted)) scripted
              eq_refl "*" (make_slice ["app"]) 5 _ _ _ Hrun)
    as (front & page & _ & Hall & Hkeys & _).
  exists front, page. split; assumption.
Defined.

Lemma Clear_returns_after_session_witness :
  exists pages en,
    Some (Errorf "failed to clear db, reason boom") = clear_result en
    /\ [("SCAN", [IInt64 0; IString "MATCH"; IString "*"]); ("UNLINK", [IBytes "a"])]
       = clear_commands "*" 0 pages en.
Proof.
  assert (Hrun : Clear ":" 5 (NewCacheFromPool _ (Some scripted)) "*" nil_slice
                   (Build_World [scan_reply "3" ["a"]; failure "boom"] [])
                 = (Returns (Some (Errorf "failed to clear db, reason boom")),
                    Build_World []
                      [("SCAN", [IInt64 0; IString "MATCH"; IString "*"]);
                       ("UNLINK", [IBytes "a"])]))
    by reflexivity.
  destruct (Clear_returns_after_session ":" (NewCacheFromPool _ (Some scripted)) scripted
              eq_refl "*" nil_slice 5 _ _ _ Hrun)
    as (pages & en & _ & Hres & Hlog & _).
  exists pages, en. split; [exact Hres | exact Hlog].
Defined.

Lemma loops_end_only_at_cursor_0_or_failure_witness :
  fst (GetKeys ":" 7 (NewCacheFromPool _ (Some endless)) "*" nil_slice (Build_World tt []))
  = OutOfFuel
  /\ fst (Clear ":" 7 (NewCacheFromPool _ (Some endless)) "*" nil_slice (Build_World tt []))
     = OutOfFuel.
Proof.
  assert (Hitems : forall (st : unit) cursor items, exists cursor' page st',
             scan_items endless (namespaced ":" "*" nil_slice) st cursor items
             = (inr (cursor', page), st') /\ cursor' <> 0%Z).
  { intros st cursor items. exists 1%Z, ["k"], st. split; [reflexivity | discriminate]. }
  assert (Hkeys : forall (st : unit) cursor keys, exists cursor' page st',
             scan_keys endless (namespaced ":" "*" nil_slice) st cursor keys
             = (inr (cursor', page), st') /\ cursor' <> 0%Z).
  { intros st cursor keys. exists 1%Z, [IBytes "k"], st. split; [reflexivity | discriminate]. }
  assert (Hunlink : forall (st : unit) page, snd (fst (Do endless st "UNLINK" page)) = None).
  { reflexivity. }
  destruct (loops_end_only_at_cursor_0_or_failure ":" (NewCacheFromPool _ (Some endless))
              endless eq_refl "*" nil_slice Hitems Hkeys Hunlink 7 (Build_World tt []))
    as (H1 & _ & H3 & _).
  split; assumption.
Defined.

(** [GetKeys] and [GetAllKeys] only read: whatever the store answers and
    however long they run, every command they issue is a SCAN.  [Clear] and
    [ClearAll] issue SCAN and UNLINK and nothing else. *)
Theorem GetKeys_only_scans {redigo : Redigo} {St : Type} (Separator : string)
  (c : option (Cache St)) (pattern : string) (namespace : slice string) (fuel : nat)
  (w : World St) :
  (exists new,
      issued (snd (GetKeys Separator fuel c pattern namespace w)) = (issued w ++ new)%list
      /\ Forall (fun cmd => fst cmd = "SCAN") new)
  /\ (exists new,
      issued (snd (GetAllKeys Separator fuel c namespace w)) = (issued w ++ new)%list
      /\ Forall (fun cmd => fst cmd = "SCAN") new)
  /\ (exists new,
      issued (snd (Clear Separator fuel c pattern namespace w)) = (issued w ++ new)%list
      /\ Forall (fun cmd => fst cmd = "SCAN" \/ fst cmd = "UNLINK") new)
  /\ (exists new,
      issued (snd (ClearAll Separator fuel c namespace w)) = (issued w ++ new)%list
      /\ Forall (fun cmd => fst cmd = "SCAN" \/ fst cmd = "UNLINK") new).
Proof.
  assert (HG : forall pattern, exists new,
             issued (snd (GetKeys Separator fuel c pattern namespace w)) = (issued w ++ new)%list
             /\ Forall (fun cmd => fst cmd = "SCAN") new).
  { intros pat. unfold GetKeys. destruct (usable c) as [r|].
    - destruct (GetKeys_loop_commands r (namespaced Separator pat namespace) fuel 0 [] [] w)
        as (new & Hnew & Hall).
      exists new. split; [exact Hnew|].
      eapply Forall_impl; [|exact Hall]. intros cmd [cursor' ->]. reflexivity.
    - exists []. cbn. rewrite app_nil_r. split; constructor. }
  assert (HC : forall pattern, exists new,
             issued (snd (Clear Separator fuel c pattern namespace w)) = (issued w ++ new)%list
             /\ Forall (fun cmd => fst cmd = "SCAN" \/ fst cmd = "UNLINK") new).
  { intros pat. unfold Clear. destruct (usable c) as [r|].
    - destruct (Clear_loop_commands r (namespaced Separator pat namespace) fuel 0 [] w)
        as (new & Hnew & Hall).
      exists new. split; [exact Hnew|].
      eapply Forall_impl; [|exact Hall].
      intros cmd [[cursor' ->] | (k & keys & ->)]; [left | right]; reflexivity.
    - exists []. cbn. rewrite app_nil_r. split; constructor. }
  split; [apply HG | split; [apply HG | split; [apply HC | apply HC]]].
Qed.

(** ** Patterns and [fmt.Sprintf], again *)

Lemma directive_percent (s : string) : fmt.directive (String "%" s) = ("%", s).
Proof. reflexivity. Qed.

(** A caller can have a ['%'] sent by doubling it: for every pattern,
    [fmt.Sprintf] prints the pattern with its ['%'] doubled as the pattern
    itself, so [GetKeys] and [Clear], called with the doubled pattern, ask
    SCAN for the pattern that was meant. *)
Theorem Sprintf_escape_percent (pattern : string) :
  fmt.Sprintf (escape_percent pattern) = pattern
  /\ forall Separator cursor,
       scan_command cursor (namespaced Separator (escape_percent pattern) nil_slice)
       = ("SCAN", [IInt64 cursor; IString "MATCH"; IString pattern]).
Proof.
  assert (H : fmt.Sprintf (escape_percent pattern) = pattern).
  { induction pattern as [|ch pattern IH]; [reflexivity|].
    cbn [escape_percent]. destruct (Ascii.eqb_spec ch "%") as [-> | Hch]; cbv beta iota.
    - rewrite Sprintf_percent, directive_percent. cbn [fst snd append]. now rewrite IH.
    - rewrite Sprintf_byte by (now apply Ascii.eqb_neq). now rewrite IH. }
  split; [exact H|]. intros Separator cursor. unfold scan_command.
  change (namespaced Separator (escape_percent pattern) nil_slice)
    with (escape_percent pattern).
  now rewrite H.
Qed.

Lemma no_percent_app (a b : string) :
  no_percent (a ++ b) = no_percent a && no_percent b.
Proof.
  induction a as [|ch a IH]; [reflexivity|]. cbn. rewrite IH. apply andb_assoc.
Qed.

Lemma no_percent_concat (sep : string) (segs : list string) :
  no_percent sep = true -> Forall (fun s => no_percent s = true) segs ->
  no_percent (String.concat sep segs) = true.
Proof.
  intros Hsep Hall. induction Hall as [|x segs Hx Hall IH]; [reflexivity|].
  destruct segs as [|y segs]; [exact Hx|].
  change (String.concat sep (x :: y :: segs)) with (x ++ sep ++ String.concat sep (y :: segs)).
  rewrite !no_percent_app, Hx, Hsep, IH. reflexivity.
Qed.

(** When neither the separator nor a namespace segment holds a ['%'], what
    [fmt.Sprintf] does to the namespaced pattern it does to the pattern
    alone: the MATCH argument is the namespace prefix as it is, before the
    printing of the pattern.  The pattern "*" of [ClearAll] and [GetAllKeys]
    is then sent as it is, behind the prefix. *)
Theorem Sprintf_keeps_namespace (Separator pattern : string) (namespace : slice string)
  (Hsep : no_percent Separator = true)
  (Hsegs : Forall (fun s => no_percent s = true) (elems namespace)) :
  fmt.Sprintf (namespaced Separator pattern namespace)
  = namespaced Separator (fmt.Sprintf pattern) namespace
  /\ forall cursor,
       scan_command cursor (namespaced Separator "*" namespace)
       = ("SCAN", [IInt64 cursor; IString "MATCH"; IString (namespaced Separator "*" namespace)]).
Proof.
  assert (H : forall p, fmt.Sprintf (namespaced Separator p namespace)
                        = namespaced Separator (fmt.Sprintf p) namespace).
  { intros p. unfold namespaced. destruct (0 <? len namespace)%nat; [|reflexivity].
    rewrite Sprintf_no_percent_app
      by (apply no_percent_concat; [exact Hsep | exact Hsegs]).
    rewrite (Sprintf_no_percent_app ":") by reflexivity. reflexivity. }
  split; [apply H|]. intros cursor. unfold scan_command. rewrite H. reflexivity.
Qed.

Lemma Sprintf_keeps_namespace_witness :
  fmt.Sprintf (namespaced "/" "50%" (make_slice ["app"; "v1"])) = "app/v1:50%!(NOVERB)".
Proof.
  assert (Hsegs : Forall (fun s => no_percent s = true) (elems (make_slice ["app"; "v1"]))).
  { repeat constructor. }
  exact (proj1 (Sprintf_keeps_namespace "/" "50%" (make_slice ["app"; "v1"]) eq_refl Hsegs)).
Defined.

(** ** Constructors and accessor *)

(** [Pool()] is the one method that does not test its receiver: it panics
    on a nil client, where [Ping] returns [NotInitializedError]; on any
    other client it returns the pool the client was built from, also a nil
    one, and the operations are usable exactly when that pool is not
    nil. *)
Theorem Cache_Pool_of_client {St : Type} (c : option (Cache St)) (p : option (Pool St))
  (w : World St) :
  (Cache_Pool c = None <-> c = None)
  /\ Ping None w = (Some NotInitializedError, w)
  /\ Cache_Pool (NewCacheFromPool St p) = Some p
  /\ usable (NewCacheFromPool St p) = p
  /\ (not_initialized (NewCacheFromPool St p) <-> p = None).
Proof.
  split; [destruct c; cbn; split; congruence|].
  split; [reflexivity|]. split; [reflexivity|]. split; [reflexivity|].
  rewrite <- usable_None. reflexivity.
Qed.

(** The [Dial] closure of [NewCache] always dials [host] over tcp.  With
    two credentials or more it sends the first as user name and the second
    as password and reads no further; a credential alone is the password;
    without credentials no option is sent. *)
Theorem NewCache_Dial_credentials (host : string) (cred : slice string) :
  network (NewCache_Dial host cred) = "tcp"
  /\ address (NewCache_Dial host cred) = host
  /\ options (NewCache_Dial host cred)
     = match elems cred with
       | [] => []
       | [password] => [DialPassword password]
       | username :: password :: _ => [DialUsername username; DialPassword password]
       end.
Proof.
  unfold NewCache_Dial, len, cred_at.
  destruct (elems cred) as [|u [|p rest]]; repeat split.
Qed.

Section NewCacheClient.

Context {redigo : Redigo} {St : Type}.
Variable redis_Pool : PoolSettings St -> Pool St.
Variables (Separator host : string) (cred : slice string).

(** [NewCache] dials nothing and checks nothing: for every host and
    credentials it gives an initialized client, with a pool of at most 10
    connections, 5 of them idle, that waits when exhausted.  So no
    operation on that client returns [NotInitializedError]; and the check
    at borrow time sends one PING and returns the error of the connection
    as it is. *)
Theorem NewCache_is_initialized (key : string) (namespace : slice string)
  (conn : Pool St) (w : World St) :
  let c := NewCache redis_Pool host cred in
  let settings := NewCache_settings St host cred in
  usable c = Some (redis_Pool settings)
  /\ ~ not_initialized c
  /\ (MaxActive settings, MaxIdle settings, Wait settings) = (10%Z, 5%Z, true)
  /\ fst (Ping c w) <> Some NotInitializedError
  /\ snd (fst (Get Separator c key namespace w)) <> Some NotInitializedError
  /\ NewCache_TestOnBorrow conn w
     = (snd (fst (Do conn (store w) "PING" [])),
        Build_World (snd (Do conn (store w) "PING" [])) (issued w ++ [("PING", [])])).
Proof.
  intros c settings.
  assert (Hu : usable c = Some (redis_Pool settings)) by reflexivity.
  assert (Hn : ~ not_initialized c).
  { intros H. apply usable_None in H. rewrite Hu in H. discriminate H. }
  split; [exact Hu|]. split; [exact Hn|]. split; [reflexivity|].
  split.
  { unfold Ping, bind, ret, conn_Do. rewrite Hu.
    destruct (Do _ (store w) "PING" []) as [[? [?|]] ?]; discriminate. }
  split.
  { unfold Get, bind, ret, conn_Do. rewrite Hu.
    destruct (Do _ (store w) "GET" _) as [[? [?|]] ?]; discriminate. }
  unfold NewCache_TestOnBorrow, bind, ret, conn_Do.
  destruct (Do conn (store w) "PING" []) as [[reply err] s']. reflexivity.
Qed.

End NewCacheClient.

(** ** [Set] followed by [GetString], and the tests *)

Section SetAndGet.

Context {redigo : Redigo} {St : Type}.
Variable Separator : string.
Variables (c : option (Cache St)) (r : Pool St).
Hypothesis Hc : usable c = Some r.

(** [Set] and [GetString] called with the same key and namespace address
    the same key of the store: when the store accepts the SET and then
    answers the GET of that key with the value as a bulk string, which
    [redis.String] converts to the string, [GetString] returns the value
    that was set, without error, after exactly these two commands. *)
Theorem Set_then_GetString (key value : string) (namespace : slice string) (w : World St)
  (reply : iface) (st1 st2 : St) :
  let k := namespaced Separator key namespace in
  Do r (store w) "SET" [IString k; IString value] = (reply, None, st1) ->
  Do r st1 "GET" [IString k] = (IBytes value, None, st2) ->
  redis_String (IBytes value) None = (value, None) ->
  fst (Set_ Separator c key (IString value) namespace w) = None
  /\ GetString Separator c key namespace (snd (Set_ Separator c key (IString value) namespace w))
     = ((value, None),
        Build_World st2 (issued w ++ [("SET", [IString k; IString value]);
                                      ("GET", [IString k])])).
Proof.
  intros k Hset Hget Hstr.
  unfold GetString, Get, Set_, bind, ret, conn_Do. rewrite Hc. fold k.
  rewrite Hset. cbn [fst snd store issued]. rewrite Hget. cbn [fst snd].
  rewrite Hstr, <- app_assoc. split; reflexivity.
Qed.

(** The tests of the package.  On a store that accepts every SET and then
    answers the GET of the same key with the value set, [TestCache_SetAndGet]
    and [TestCache_SetAndGetWithNamespace] report nothing; [TestCache_Ping]
    reports nothing exactly when the store answers PING without error. *)
Theorem tests_pass_on_a_store_that_keeps_values
  (Hstring : forall value, redis_String (IBytes value) None = (value, None))
  (Hkeeps : forall st k value, exists reply st1 st2,
      Do r st "SET" [IString k; IString value] = (reply, None, st1)
      /\ Do r st1 "GET" [IString k] = (IBytes value, None, st2))
  (w : World St) :
  fst (TestCache_SetAndGet Separator c w) = []
  /\ fst (TestCache_SetAndGetWithNamespace Separator c w) = []
  /\ (fst (TestCache_Ping c w) = [] <-> snd (fst (Do r (store w) "PING" [])) = None).
Proof.
  assert (H : forall key want namespace, fst (set_and_get Separator c key want namespace w) = []).
  { intros key want namespace.
    destruct (Hkeeps (store w) (namespaced Separator key namespace) want)
      as (reply & st1 & st2 & Hset & Hget).
    destruct (Set_then_GetString key want namespace w reply st1 st2 Hset Hget (Hstring want))
      as [HS HG].
    unfold set_and_get, bind in *.
    destruct (Set_ Separator c key (IString want) namespace w) as [err w1].
    cbn [fst snd] in HS, HG. subst err. rewrite HG. cbn [fst snd].
    rewrite String.eqb_refl. reflexivity. }
  split; [apply H|]. split; [apply H|].
  unfold TestCache_Ping, Ping, bind, ret, conn_Do. rewrite Hc.
  destruct (Do r (store w) "PING" []) as [[reply [e|]] s']; cbn;
    split; intros E; (reflexivity || discriminate E).
Qed.

End SetAndGet.

(** On a client that was not initialized every test of the package
    reports a failure, and the two that write stop at their first step. *)
Theorem tests_fail_without_a_pool {redigo : Redigo} {St : Type} (Separator : string)
  (c : option (Cache St)) (H : not_initialized c) (w : World St) :
  TestCache_Ping c w = ([t_Errorf "failed to ping redis" []], w)
  /\ TestCache_SetAndGet Separator c w = ([t_Fatalf "failed to set value" []], w)
  /\ TestCache_SetAndGetWithNamespace Separator c w
     = ([t_Fatalf "failed to set value" []], w).
Proof.
  apply not_initialized_usable in H.
  unfold TestCache_Ping, TestCache_SetAndGet, TestCache_SetAndGetWithNamespace, set_and_get,
    Ping, Set_, bind, ret.
  rewrite H. repeat split.
Qed.

Lemma memory_keeps (st : list (string * string)) (k value : string) :
  exists reply st1 st2,
    Do memory st "SET" [IString k; IString value] = (reply, None, st1)
    /\ Do memory st1 "GET" [IString k] = (IBytes value, None, st2).
Proof.
  exists (IString "OK"), ((k, value) :: st), ((k, value) :: st).
  split; [reflexivity|]. cbn. now rewrite String.eqb_refl.
Qed.

Lemma Set_then_GetString_witness :
  fst (GetString ":" (NewCacheFromPool _ (Some memory)) "k" (make_slice ["n"])
         (snd (Set_ ":" (NewCacheFromPool _ (Some memory)) "k" (IString "v")
                 (make_slice ["n"]) (Build_World [] []))))
  = ("v", None).
Proof.
  exact (f_equal fst (proj2 (Set_then_GetString (redigo := table_redigo) ":"
           (NewCacheFromPool _ (Some memory)) memory eq_refl "k" "v" (make_slice ["n"])
           (Build_World [] []) (IString "OK") [("n:k", "v")] [("n:k", "v")]
           eq_refl eq_refl eq_refl))).
Defined.

Lemma tests_pass_on_a_store_that_keeps_values_witness :
  fst (TestCache_SetAndGet ":" (NewCacheFromPool _ (Some memory)) (Build_World [] [])) = []
  /\ fst (TestCache_SetAndGetWithNamespace ":" (NewCacheFromPool _ (Some memory))
            (Build_World [("string_key", "Some random string")] [])) = [].
Proof.
  split.
  - exact (proj1 (tests_pass_on_a_store_that_keeps_values (redigo := table_redigo) ":"
                    (NewCacheFromPool _ (Some memory)) memory eq_refl
                    (fun value => eq_refl) memory_keeps (Build_World [] []))).
  - exact (proj1 (proj2 (tests_pass_on_a_store_that_keeps_values (redigo := table_redigo) ":"
                    (NewCacheFromPool _ (Some memory)) memory eq_refl
                    (fun value => eq_refl) memory_keeps
                    (Build_World [("string_key", "Some random string")] [])))).
Defined.

Lemma tests_fail_without_a_pool_witness :
  TestCache_Ping (NewCacheFromPool (list (string * string)) None) (Build_World [] [])
  = ([t_Errorf "failed to ping redis" []], Build_World [] []).
Proof.
  assert (H : not_initialized (NewCacheFromPool (list (string * string)) None)).
  { right. eexists. split; reflexivity. }
  exact (proj1 (tests_fail_without_a_pool (redigo := table_redigo) ":" _ H (Build_World [] []))).
Defined.
